(** * Request-handling code of the Angular HTTP practice application

    A shallow embedding of the request-handling code of the repository:
    the demo service [HttpDemoService] and the TypeScript classes of the
    HttpClient guide ([AuthService], [AuthInterceptor], [TokenRefreshService],
    [CacheInterceptor], [CacheService], [RequestQueueService],
    [retryWithBackoff], [BatchErrorHandler]).

    Conventions.
    - JavaScript numbers that the code uses as counters, identifiers, HTTP
      status codes and millisecond clocks are integers ([Z] or [nat]);
      [NaN], infinities and fractions are outside the model.
    - An RxJS observable of an HTTP call delivers one value or one error.
      Code that runs when such an observable is subscribed and code that
      runs in its callbacks are separate functions on an explicit state, so
      that callbacks of different callers can be interleaved.
    - The RxJS operators [retry], [mergeMap], [timeout], [filter], [take],
      [tap], [catchError] and the class [BehaviorSubject] are library code;
      their documented behaviour is written out where the source uses them. *)

From Stdlib Require Import ZArith String Ascii List Bool Lia.
From stdpp Require Import base gmap strings list pretty.

Local Open Scope string_scope.
Local Open Scope list_scope.
Local Open Scope Z_scope.

(** ** JavaScript primitives used by the source *)

Module Js.

(** [s.includes(sub)]: [sub] occurs somewhere in [s]. *)
Fixpoint includes (s sub : string) : bool :=
  String.prefix sub s ||
  match s with
  | EmptyString => false
  | String _ s' => includes s' sub
  end.

(** [n.toString()] for an integer [n] (decimal digits, with a minus sign
    when negative; JavaScript switches to exponent notation from 10^21 on). *)
Definition toString (n : Z) : string := pretty n.

(** Truthiness of an optional number: [undefined] and [0] are falsy. *)
Definition truthy (n : option Z) : bool :=
  match n with
  | None => false
  | Some v => negb (v =? 0)
  end.

(** ASCII lower-casing, as [String.prototype.toLowerCase] on header names. *)
Definition lower_ascii (a : ascii) : ascii :=
  let n := nat_of_ascii a in
  if ((65 <=? n) && (n <=? 90))%nat then ascii_of_nat (n + 32) else a.

Fixpoint toLowerCase (s : string) : string :=
  match s with
  | EmptyString => EmptyString
  | String a s' => String (lower_ascii a) (toLowerCase s')
  end.

End Js.

(** ** Requests, responses and errors of Angular's HttpClient *)

(** Request bodies that occur in the source. *)
Inductive Body :=
| NoBody
| RefreshBody (refreshToken : option string)   (* [{ refreshToken }] *)
| JsonBody (json : string).

(** [HttpHeaders] keeps one entry per lower-cased name. *)
Definition HttpHeaders_set (name value : string) (h : gmap string string)
  : gmap string string :=
  <[Js.toLowerCase name := value]> h.

Definition HttpHeaders_get (name : string) (h : gmap string string)
  : option string :=
  h !! Js.toLowerCase name.

(** [HttpParams.append] keeps the order of insertion and repeated keys. *)
Definition HttpParams_append (k v : string) (p : list (string * string))
  : list (string * string) :=
  p ++ [(k, v)].

Record HttpRequest := mkRequest {
  method : string;
  url : string;
  params : list (string * string);
  headers : gmap string string;
  body : Body
}.

(** [req.clone({ headers: req.headers.set(name, value) })] *)
Definition clone_set_header (req : HttpRequest) (name value : string)
  : HttpRequest :=
  {| method := method req; url := url req; params := params req;
     headers := HttpHeaders_set name value (headers req);
     body := body req |}.

(** Errors that travel on the error channel of an observable.
    [HttpErrorResponse] carries the URL of the failed request, the status
    (0 for a connection failure) and the number of seconds in its
    Retry-After header, if it has one; [JsError] is [new Error(message)];
    [TimeoutError] is raised by the [timeout] operator. *)
Inductive Err :=
| HttpErrorResponse (errUrl : string) (status : Z) (retryAfter : option Z)
| JsError (message : string)
| TimeoutError.

(** What a subscriber of a one-shot observable has seen so far. *)
Inductive Result (A : Type) :=
| Next (a : A)        (* a value, then completion *)
| Error (e : Err)     (* an error *)
| Pending.            (* nothing yet *)
Arguments Next {A} a.
Arguments Error {A} e.
Arguments Pending {A}.

(** Body and status of a successful response. *)
Record HttpResponse := mkResponse {
  respStatus : Z;
  respBody : string
}.

(** What a scripted server does with one request: answer, or fail with a
    status (0 stands for a connection failure). *)
Inductive Reply (A : Type) :=
| Ok (a : A)
| Fail (status : Z).
Arguments Ok {A} a.
Arguments Fail {A} status.

Definition reply_result {A} (u : string) (r : Reply A) : Result A :=
  match r with
  | Ok a => Next a
  | Fail s => Error (HttpErrorResponse u s None)
  end.

(** ** RxJS operators on a call that is retried

    A subscription to an [http.get] observable takes [latency] milliseconds
    and ends with a value or an error.  A retried call is described by the
    list of its successive subscriptions; when the list is exhausted the
    server never answers. *)

Module Rx.

Record Attempt (A : Type) := mkAttempt {
  latency : Z;
  outcome : A + Err
}.
Arguments mkAttempt {A}.
Arguments latency {A}.
Arguments outcome {A}.

(** What happened downstream of an operator: the instants at which the
    source was subscribed, and the final notification with its instant. *)
Record Run (A : Type) := mkRun {
  subscriptions : list Z;
  finished : option (Z * (A + Err))
}.
Arguments mkRun {A}.
Arguments subscriptions {A}.
Arguments finished {A}.

(** The test [soFar++ < count] that [retry(count)] makes when the source
    fails with [err]: the error itself is not inspected. *)
Definition retry_resubscribes (count soFar : nat) (err : Err) : bool :=
  (soFar <? count)%nat.

(** [retry(count)], subscribed at instant [now] with [soFar] retries
    already made. *)
Fixpoint retry {A} (count soFar : nat) (now : Z) (script : list (Attempt A))
  : Run A :=
  match script with
  | [] => mkRun [now] None
  | a :: rest =>
      let t := now + latency a in
      match outcome a with
      | inl v => mkRun [now] (Some (t, inl v))
      | inr err =>
          if retry_resubscribes count soFar err
          then let r := retry count (S soFar) t rest in
               mkRun (now :: subscriptions r) (finished r)
          else mkRun [now] (Some (t, inr err))
      end
  end.

(** [timeout(each)] on a source subscribed at instant 0 that delivers one
    value: a notification that arrives before [each] passes through;
    otherwise the source is unsubscribed at [each] and [TimeoutError] is
    raised.  Subscriptions that would have started at or after [each] do
    not take place. *)
Definition timeout {A} (each : Z) (r : Run A) : Run A :=
  let timedOut :=
    mkRun (List.filter (fun s => s <? each) (subscriptions r))
          (Some (each, inr TimeoutError)) in
  match finished r with
  | Some (t, o) => if t <? each then r else timedOut
  | None => timedOut
  end.

(** [catchError(h)] where [h] returns [throwError(...)] or a value. *)
Definition catchError {A} (h : Err -> A + Err) (r : Run A) : Run A :=
  match finished r with
  | Some (t, inr err) => mkRun (subscriptions r) (Some (t, h err))
  | _ => r
  end.

End Rx.

(** ** HttpDemoService *)

Module HttpDemoService.

Definition apiUrl : string := "https://jsonplaceholder.typicode.com".

Definition http_get (u : string) (p : list (string * string)) : HttpRequest :=
  mkRequest "GET" u p ∅ NoBody.

(** [getPostsWithParams(userId?, _start?, _limit?)]: the request handed to
    [this.http.get]. *)
Definition getPostsWithParams (userId _start _limit : option Z) : HttpRequest :=
  let params := [] in
  let params :=
    match userId with
    | Some v => if Js.truthy userId
                then HttpParams_append "userId" (Js.toString v) params
                else params
    | None => params
    end in
  let params :=
    match _start with
    | Some v => HttpParams_append "_start" (Js.toString v) params
    | None => params
    end in
  let params :=
    match _limit with
    | Some v => HttpParams_append "_limit" (Js.toString v) params
    | None => params
    end in
  http_get (apiUrl +:+ "/posts") params.

(** [getPostsWithRetry()]:
    [http.get(url).pipe(retry(3), timeout(5000), catchError(...))],
    run on the scripted behaviour of the successive GETs. *)
Definition getPostsWithRetry {Posts} (script : list (Rx.Attempt Posts))
  : Rx.Run Posts :=
  Rx.catchError
    (fun error => inr (JsError "Failed to fetch posts after 3 retries"))
    (Rx.timeout 5000 (Rx.retry 3 0 0 script)).

End HttpDemoService.

(** ** Retry with backoff and batch error handling (HttpClient guide) *)

(** What a retry notifier does: rethrow, or fire a timer after [ms]
    milliseconds and let the source be subscribed again. *)
Inductive Notifier :=
| ThrowError (error : Err)
| Timer (ms : Z).

Module RetryWithBackoff.

(** The function given to [concatMap] inside [retryWhen]:
    [(error, index) => ...]. *)
Definition onError (maxRetries backoffMs : Z) (error : Err) (index : nat)
  : Notifier :=
  let retryAttempt := Z.of_nat index + 1 in
  if maxRetries <? retryAttempt
  then ThrowError error
  else Timer (retryAttempt * backoffMs).

(** [source.pipe(retryWithBackoff(maxRetries, backoffMs))] on scripted
    subscriptions: the delays waited, and the final notification. *)
Fixpoint run {A} (maxRetries backoffMs : Z) (index : nat)
         (script : list (A + Err)) : list Z * Result A :=
  match script with
  | [] => ([], Pending)
  | inl v :: _ => ([], Next v)
  | inr error :: rest =>
      match onError maxRetries backoffMs error index with
      | ThrowError e => ([], Error e)
      | Timer ms =>
          let '(delays, r) := run maxRetries backoffMs (S index) rest in
          (ms :: delays, r)
      end
  end.

(** [retryWithBackoff(maxRetries = 3, backoffMs = 1000)] *)
Definition retryWithBackoff {A} (script : list (A + Err)) : list Z * Result A :=
  run 3 1000 0 script.

End RetryWithBackoff.

Module BatchErrorHandler.

(** [error.headers.get('Retry-After') * 1000]: a missing header is [null],
    and [null * 1000] is 0. *)
Definition retryAfterMs (retryAfter : option Z) : Z :=
  match retryAfter with
  | Some seconds => seconds * 1000
  | None => 0
  end.

(** [handleBatchError(error, batch)]: the delay before [retryBatch], or the
    error rethrown. *)
Definition handleBatchError (error : Err) : Notifier :=
  match error with
  | HttpErrorResponse _ status retryAfter =>
      if status =? 429 then Timer (retryAfterMs retryAfter)
      else ThrowError error
  | _ => ThrowError error
  end.

(** [retryBatch]: [retry({ count: 3, delay: (error, retryCount) =>
    timer(Math.pow(2, retryCount) * 1000) })]; [retryCount] is the number
    of the retry, starting at 1. *)
Definition retryBatch_delay (error : Err) (retryCount : nat) : Z :=
  2 ^ Z.of_nat retryCount * 1000.

Definition retryBatch_onError (error : Err) (soFar : nat) : Notifier :=
  if Rx.retry_resubscribes 3 soFar error
  then Timer (retryBatch_delay error (S soFar))
  else ThrowError error.

End BatchErrorHandler.

(** ** RequestQueueService: a queue drained by [mergeMap] with a bound

    [queue$.pipe(mergeMap(request => request(), concurrentRequests))] keeps a
    counter of running inner observables and a buffer of values that arrived
    while the counter was at the bound.  Requests are named by numbers; the
    counter is the length of [active]. *)

Module RequestQueueService.

Definition concurrentRequests : nat := 3.

Record Queue := mkQueue {
  active : list nat;     (* inner observables subscribed and not finished *)
  buffer : list nat;     (* values waiting in mergeMap's buffer *)
  started : list nat;    (* every request ever started, in order *)
  arrived : list nat;    (* every request that reached mergeMap, in order *)
  closed : bool          (* the subscription of processQueue has ended *)
}.

Definition empty : Queue := mkQueue [] [] [] [] false.

Inductive Event :=
| Subscribes (r : nat)   (* the observable of [addToQueue] is subscribed *)
| Completes (r : nat)    (* the request [r] completes *)
| Fails (r : nat).       (* the request [r] fails *)

(** [doInnerSub]: [active++] and subscribe the inner observable. *)
Definition doInnerSub (q : Queue) (r : nat) : Queue :=
  mkQueue (active q ++ [r]) (buffer q) (started q ++ [r]) (arrived q) (closed q).

(** [outerNext]: [active < concurrent ? doInnerSub(value) : buffer.push(value)];
    a value sent to [queue$] after the subscription ended has no observer. *)
Definition outerNext (concurrent : nat) (q : Queue) (r : nat) : Queue :=
  if closed q then q
  else
    let q := mkQueue (active q) (buffer q) (started q) (arrived q ++ [r]) false in
    if (length (active q) <? concurrent)%nat
    then doInnerSub q r
    else mkQueue (active q) (buffer q ++ [r]) (started q) (arrived q) false.

(** [while (buffer.length && active < concurrent) doInnerSub(buffer.shift())] *)
Fixpoint drain (concurrent : nat) (waiting : list nat) (q : Queue) : Queue :=
  match waiting with
  | [] => mkQueue (active q) [] (started q) (arrived q) (closed q)
  | r :: rest =>
      if (length (active q) <? concurrent)%nat
      then drain concurrent rest
             (doInnerSub (mkQueue (active q) rest (started q) (arrived q) (closed q)) r)
      else mkQueue (active q) waiting (started q) (arrived q) (closed q)
  end.

Fixpoint remove_first (r : nat) (l : list nat) : list nat :=
  match l with
  | [] => []
  | x :: l' => if (x =? r)%nat then l' else x :: remove_first r l'
  end.

Definition is_active (q : Queue) (r : nat) : bool :=
  existsb (fun x => (x =? r)%nat) (active q).

(** The finalizer of a completed inner observable: [active--], then drain. *)
Definition innerComplete (concurrent : nat) (q : Queue) (r : nat) : Queue :=
  if closed q || negb (is_active q r) then q
  else
    drain concurrent (buffer q)
      (mkQueue (remove_first r (active q)) (buffer q) (started q) (arrived q) false).

(** An inner error is forwarded to the subscriber of [processQueue], which
    has no error handler: the subscription ends, every running inner
    observable is unsubscribed and buffered values are never started. *)
Definition innerError (q : Queue) (r : nat) : Queue :=
  if closed q || negb (is_active q r) then q
  else mkQueue [] (buffer q) (started q) (arrived q) true.

Definition step (concurrent : nat) (q : Queue) (e : Event) : Queue :=
  match e with
  | Subscribes r => outerNext concurrent q r
  | Completes r => innerComplete concurrent q r
  | Fails r => innerError q r
  end.

Definition run (concurrent : nat) (events : list Event) : Queue :=
  fold_left (step concurrent) events empty.

End RequestQueueService.

(** ** CacheService: a cache with a maximal age *)

Module CacheService.

Record CacheEntry := mkEntry {
  data : string;
  timestamp : Z
}.

Definition MAX_CACHE_AGE : Z := 5 * 60 * 1000.

(** [isExpired(entry)] at instant [now] ([Date.now()]). *)
Definition isExpired (now : Z) (entry : CacheEntry) : bool :=
  MAX_CACHE_AGE <? now - timestamp entry.

(** The lookup at the head of [getData]: [cached && !this.isExpired(cached)]. *)
Definition get (cache : gmap string CacheEntry) (url : string) (now : Z)
  : option string :=
  match cache !! url with
  | Some cached => if negb (isExpired now cached) then Some (data cached) else None
  | None => None
  end.

(** The answer of the server to one [http.get]: the instant at which it
    arrives, and the response or the error. *)
Record Answer := mkAnswer {
  arrival : Z;
  response : string + Err
}.

(** What [getData] has done when it returns its observable and the
    observable is subscribed: the fresh entry is served at once with
    [of(cached.data)], or [http.get(url)] has been sent. *)
Inductive Started :=
| Served (d : string)
| Requested.

Definition getData_subscribed (cache : gmap string CacheEntry) (url : string) (now : Z)
  : Started :=
  match get cache url now with
  | Some d => Served d
  | None => Requested
  end.

(** What happens when the answer to [http.get(url)] arrives: the callback of
    [tap] stores a response with [Date.now()] as its timestamp; an error
    stores nothing. *)
Definition getData_answered (cache : gmap string CacheEntry) (url : string)
           (answer : Answer) : Result string * gmap string CacheEntry :=
  match response answer with
  | inl r => (Next r, <[url := mkEntry r (arrival answer)]> cache)
  | inr e => (Error e, cache)
  end.

(** A call of [getData] run to its end.  [cacheAfter] is the content of the
    cache from the instant [settledAt] on: the instant of the call when the
    entry was served, the instant at which the answer arrived otherwise.
    Before [settledAt] the cache is still the one the call found, so a call
    made in between is not a call on [cacheAfter]: reads that overlap are
    followed step by step in [CacheTimeline]. *)
Record Outcome := mkOutcome {
  value : Result string;
  cacheAfter : gmap string CacheEntry;
  httpCalls : nat;
  settledAt : Z
}.

(** [getData(url)] called at instant [now]; [answer] is used only when the
    call goes to the network. *)
Definition getData (cache : gmap string CacheEntry) (url : string) (now : Z)
           (answer : Answer) : Outcome :=
  match getData_subscribed cache url now with
  | Served d => mkOutcome (Next d) cache 0 now
  | Requested =>
      mkOutcome (fst (getData_answered cache url answer))
                (snd (getData_answered cache url answer)) 1 (arrival answer)
  end.

End CacheService.

(** ** Reads of CacheService that can overlap

    A read is the call of [getData] and the subscription of its observable;
    the answer to its [http.get] arrives as a later event, so other reads can
    take place in between.  [inflight] are the URLs of the requests sent and
    not answered, [delivered] what the readers have received. *)

Module CacheTimeline.

Inductive Event :=
| Reads (url : string) (now : Z)
| Arrives (url : string) (now : Z) (response : string + Err).

Record State := mkState {
  cache : gmap string CacheService.CacheEntry;
  inflight : list string;
  httpCalls : nat;
  delivered : list (string * Result string)
}.

Definition start (cache : gmap string CacheService.CacheEntry) : State :=
  mkState cache [] 0 [].

Definition reads (url : string) (now : Z) (s : State) : State :=
  match CacheService.getData_subscribed (cache s) url now with
  | CacheService.Served d =>
      mkState (cache s) (inflight s) (httpCalls s) (delivered s ++ [(url, Next d)])
  | CacheService.Requested =>
      mkState (cache s) (inflight s ++ [url]) (S (httpCalls s)) (delivered s)
  end.

Fixpoint remove_url (url : string) (l : list string) : list string :=
  match l with
  | [] => []
  | u :: l' => if String.eqb u url then l' else u :: remove_url url l'
  end.

(** The answer to a request in flight for [url] arrives at instant [now]. *)
Definition arrives (url : string) (now : Z) (response : string + Err) (s : State)
  : State :=
  if existsb (String.eqb url) (inflight s) then
    let answered :=
      CacheService.getData_answered (cache s) url (CacheService.mkAnswer now response) in
    mkState (snd answered) (remove_url url (inflight s)) (httpCalls s)
            (delivered s ++ [(url, fst answered)])
  else s.

Definition step (s : State) (e : Event) : State :=
  match e with
  | Reads url now => reads url now s
  | Arrives url now response => arrives url now response s
  end.

Definition run (cache : gmap string CacheService.CacheEntry) (events : list Event)
  : State :=
  fold_left step events (start cache).

End CacheTimeline.

(** ** CacheInterceptor: a cache of GET responses by URL *)

Module CacheInterceptor.

Record Outcome := mkOutcome {
  value : Result HttpResponse;
  cacheAfter : gmap string HttpResponse;
  forwarded : list HttpRequest      (* requests given to [next.handle] *)
}.

(** [intercept(req, next)]; [reply] is what [next.handle] delivers when it
    is called. *)
Definition intercept (cache : gmap string HttpResponse) (req : HttpRequest)
           (reply : Reply HttpResponse) : Outcome :=
  if negb (String.eqb (method req) "GET") then
    mkOutcome (reply_result (url req) reply) cache [req]
  else
    match cache !! url req with
    | Some cachedResponse => mkOutcome (Next cachedResponse) cache []
    | None =>
        match reply with
        | Ok event => mkOutcome (Next event) (<[url req := event]> cache) [req]
        | Fail s => mkOutcome (Error (HttpErrorResponse (url req) s None)) cache [req]
        end
    end.

(** Requests handled one after the other, each with its scripted reply. *)
Fixpoint serve (cache : gmap string HttpResponse)
         (calls : list (HttpRequest * Reply HttpResponse))
  : list Outcome :=
  match calls with
  | [] => []
  | (req, reply) :: rest =>
      let o := intercept cache req reply in
      o :: serve (cacheAfter o) rest
  end.

End CacheInterceptor.

(** ** Authentication: tokens, the state of AuthService, and the world

    [AuthServiceState] holds the fields of the [AuthService] object and the
    item ['tokens'] of [localStorage].  [World] adds the scripted server (the
    replies it will give to API requests and to refresh requests, in order)
    and the log of every request that reached it. *)

Record AuthTokens := mkTokens {
  accessToken : string;
  refreshToken : string;
  expiresIn : Z
}.

Record AuthServiceState := mkAuth {
  apiUrl : string;
  refreshTokenInProgress : bool;
  refreshTokenSubject : option string;   (* value of the BehaviorSubject; None is null *)
  storedTokens : option AuthTokens       (* localStorage item 'tokens' *)
}.

Record World := mkWorld {
  auth : AuthServiceState;
  apiReplies : list (Reply HttpResponse);
  refreshReplies : list (Reply AuthTokens);
  sent : list HttpRequest
}.

Definition set_auth (f : AuthServiceState -> AuthServiceState) (w : World) : World :=
  mkWorld (f (auth w)) (apiReplies w) (refreshReplies w) (sent w).

(** *** Observables that run to their first notification

    [M A] is a computation on the world that ends with what its subscriber
    has seen; [None] is reserved for an interceptor chain nested deeper than
    the fuel allows. *)

Module Obs.

Definition M (A : Type) : Type := World -> option (Result A * World).

Definition of_ {A} (a : A) : M A := fun w => Some (Next a, w).

Definition throwError {A} (e : Err) : M A := fun w => Some (Error e, w).

Definition switchMap {A B} (m : M A) (k : A -> M B) : M B := fun w =>
  match m w with
  | Some (Next a, w') => k a w'
  | Some (Error e, w') => Some (Error e, w')
  | Some (Pending, w') => Some (Pending, w')
  | None => None
  end.

Definition map {A B} (m : M A) (f : A -> B) : M B :=
  switchMap m (fun a => of_ (f a)).

Definition tap {A} (m : M A) (f : A -> World -> World) : M A :=
  switchMap m (fun a w => Some (Next a, f a w)).

Definition catchError {A} (m : M A) (h : Err -> M A) : M A := fun w =>
  match m w with
  | Some (Error e, w') => h e w'
  | r => r
  end.

End Obs.

Abbreviation M := Obs.M.

(** The server: it logs the request and gives its next scripted reply; a
    server without replies left never answers. *)
Definition backend_api (req : HttpRequest) : M HttpResponse := fun w =>
  let log := sent w ++ [req] in
  match apiReplies w with
  | [] => Some (Pending, mkWorld (auth w) [] (refreshReplies w) log)
  | r :: rest =>
      Some (reply_result (url req) r, mkWorld (auth w) rest (refreshReplies w) log)
  end.

Definition backend_auth (req : HttpRequest) : M AuthTokens := fun w =>
  let log := sent w ++ [req] in
  match refreshReplies w with
  | [] => Some (Pending, mkWorld (auth w) (apiReplies w) [] log)
  | r :: rest =>
      Some (reply_result (url req) r, mkWorld (auth w) (apiReplies w) rest log)
  end.

(** A request that is sent and not answered yet. *)
Definition backend_silent {A} (req : HttpRequest) : M A := fun w =>
  Some (Pending, mkWorld (auth w) (apiReplies w) (refreshReplies w) (sent w ++ [req])).

Module AuthService.

Definition storeTokens (tokens : AuthTokens) (s : AuthServiceState)
  : AuthServiceState :=
  mkAuth (apiUrl s) (refreshTokenInProgress s) (refreshTokenSubject s) (Some tokens).

Definition getStoredTokens_now (s : AuthServiceState) : Result AuthTokens :=
  match storedTokens s with
  | Some tokens => Next tokens
  | None => Error (JsError "No tokens found")
  end.

Definition getStoredTokens : M AuthTokens := fun w =>
  Some (getStoredTokens_now (auth w), w).

Definition getStoredRefreshToken (s : AuthServiceState) : option string :=
  match storedTokens s with
  | Some tokens => Some (refreshToken tokens)
  | None => None
  end.

Definition logout (s : AuthServiceState) : AuthServiceState :=
  mkAuth (apiUrl s) (refreshTokenInProgress s) (refreshTokenSubject s) None.

Definition set_inProgress (b : bool) (s : AuthServiceState) : AuthServiceState :=
  mkAuth (apiUrl s) b (refreshTokenSubject s) (storedTokens s).

Definition subject_set (v : option string) (s : AuthServiceState)
  : AuthServiceState :=
  mkAuth (apiUrl s) (refreshTokenInProgress s) v (storedTokens s).

(** What a new subscriber of
    [refreshTokenSubject.pipe(filter(token => token !== null), take(1),
    switchMap(() => this.getStoredTokens()))] sees at once: a
    BehaviorSubject replays its current value. *)
Definition joinRefresh : M AuthTokens := fun w =>
  match refreshTokenSubject (auth w) with
  | Some token => getStoredTokens w
  | None => Some (Pending, w)
  end.

(** The body of [tap(tokens => ...)], on the fields of the service. *)
Definition onTokens (tokens : AuthTokens) (s : AuthServiceState)
  : AuthServiceState :=
  subject_set (Some (accessToken tokens))
    (storeTokens tokens (set_inProgress false s)).

(** The statements of [catchError(error => ...)] before the rethrow. *)
Definition onFailure (s : AuthServiceState) : AuthServiceState :=
  logout (subject_set None (set_inProgress false s)).

Definition refreshRequest (s : AuthServiceState) : HttpRequest :=
  mkRequest "POST" (apiUrl s +:+ "/auth/refresh") [] ∅
            (RefreshBody (getStoredRefreshToken s)).

(** [refreshToken()], called and subscribed; [http_post] is the
    [HttpClient] of the service. *)
Definition refreshToken (http_post : HttpRequest -> M AuthTokens) : M AuthTokens :=
  fun w =>
    if refreshTokenInProgress (auth w) then joinRefresh w
    else
      let w := set_auth (set_inProgress true) w in
      Obs.catchError
        (Obs.tap (http_post (refreshRequest (auth w)))
             (fun tokens => set_auth (onTokens tokens)))
        (fun error w' => Obs.throwError error (set_auth onFailure w'))
        w.

End AuthService.

Module AuthInterceptor.

Definition isAuthEndpoint (url : string) : bool :=
  Js.includes url "/auth/login" || Js.includes url "/auth/refresh".

Definition bearer (tokens : AuthTokens) : string :=
  "Bearer " +:+ accessToken tokens.

Definition addAuthHeader (req : HttpRequest) : M HttpRequest :=
  Obs.map AuthService.getStoredTokens
      (fun tokens => clone_set_header req "Authorization" (bearer tokens)).

(** [error instanceof HttpErrorResponse && error.status === 401] *)
Definition is401 (error : Err) : bool :=
  match error with
  | HttpErrorResponse _ status _ => status =? 401
  | _ => false
  end.

Definition handle401Error {A} (http_post : HttpRequest -> M AuthTokens)
           (req : HttpRequest) (next : HttpRequest -> M A) : M A :=
  Obs.switchMap (AuthService.refreshToken http_post)
    (fun tokens => next (clone_set_header req "Authorization" (bearer tokens))).

(** [intercept(req, next)].  The [HttpClient] that [AuthService] uses for
    its refresh request runs the same interceptor in front of the server;
    [fuel] bounds that nesting. *)
Fixpoint intercept (fuel : nat) {A} (req : HttpRequest)
         (next : HttpRequest -> M A) {struct fuel} : M A :=
  match fuel with
  | O => fun _ => None
  | S fuel' =>
      if isAuthEndpoint (url req) then next req
      else
        Obs.catchError
          (Obs.switchMap (addAuthHeader req) next)
          (fun error =>
             if is401 error
             then handle401Error
                    (fun r => intercept fuel' r backend_auth) req next
             else Obs.throwError error)
  end.

End AuthInterceptor.

(** ** Callers of [AuthService.refreshToken] that overlap in time

    The refresh request is answered later than it is sent, so other callers
    can call [refreshToken] in between.  [waiting] are the callers subscribed
    to the pipe on [refreshTokenSubject], [inflight] the callers whose
    refresh request is on the wire, [delivered] what each caller has
    received.  The world's log [sent] holds the refresh requests. *)

Module RefreshRace.

Record Sched := mkSched {
  world : World;
  waiting : list nat;
  inflight : list nat;
  delivered : list (nat * Result AuthTokens)
}.

Inductive Event :=
| Calls (caller : nat)
| Responds (tokens : AuthTokens)
| RespondsError (status : Z).

Definition start (s : AuthServiceState) : Sched :=
  mkSched (mkWorld s [] [] []) [] [] [].

(** [caller] calls [refreshToken()] and subscribes. *)
Definition calls (caller : nat) (s : Sched) : Sched :=
  match AuthService.refreshToken backend_silent (world s) with
  | Some (Pending, w) =>
      if refreshTokenInProgress (auth (world s))
      then mkSched w (waiting s ++ [caller]) (inflight s) (delivered s)
      else mkSched w (waiting s) (inflight s ++ [caller]) (delivered s)
  | Some (r, w) =>
      mkSched w (waiting s) (inflight s) (delivered s ++ [(caller, r)])
  | None => s
  end.

(** [refreshTokenSubject.next(v)] seen by the subscribed pipes: [null] is
    filtered out; any other value lets every pipe read the stored tokens,
    deliver them and unsubscribe. *)
Definition subject_next (v : option string) (s : Sched) : Sched :=
  match v with
  | None => s
  | Some _ =>
      mkSched (world s) [] (inflight s)
        (delivered s ++
           List.map (fun c => (c, AuthService.getStoredTokens_now (auth (world s))))
                    (waiting s))
  end.

(** The refresh request on the wire is answered with [tokens]. *)
Definition responds (tokens : AuthTokens) (s : Sched) : Sched :=
  match inflight s with
  | [] => s
  | initiator :: rest =>
      let s1 := mkSched (set_auth (AuthService.onTokens tokens) (world s))
                        (waiting s) rest (delivered s) in
      let s2 := subject_next (Some (accessToken tokens)) s1 in
      mkSched (world s2) (waiting s2) (inflight s2)
              (delivered s2 ++ [(initiator, Next tokens)])
  end.

(** The refresh request on the wire fails with [status]. *)
Definition respondsError (status : Z) (s : Sched) : Sched :=
  match inflight s with
  | [] => s
  | initiator :: rest =>
      let error :=
        HttpErrorResponse (url (AuthService.refreshRequest (auth (world s))))
                          status None in
      let s1 := mkSched (set_auth AuthService.onFailure (world s))
                        (waiting s) rest (delivered s) in
      let s2 := subject_next None s1 in
      mkSched (world s2) (waiting s2) (inflight s2)
              (delivered s2 ++ [(initiator, Error error)])
  end.

Definition step (s : Sched) (e : Event) : Sched :=
  match e with
  | Calls c => calls c s
  | Responds tokens => responds tokens s
  | RespondsError status => respondsError status s
  end.

Definition run (s : AuthServiceState) (events : list Event) : Sched :=
  fold_left step events (start s).

(** What [caller] has received so far. *)
Definition received (caller : nat) (s : Sched) : list (Result AuthTokens) :=
  List.map snd (List.filter (fun d => (fst d =? caller)%nat) (delivered s)).

End RefreshRace.

(** ** TokenRefreshService: one refresh shared through a plain Subject

    The service calls [authService.refreshToken()] when no refresh is in
    progress and hands [refreshSubject] to every caller.  The call to
    [AuthService] is taken as a request that is answered later with tokens or
    with an error. *)

Module TokenRefreshService.

Inductive Subject :=
| Open (observers : list nat)
| Stopped (error : Err).

Record State := mkState {
  refreshInProgress : bool;
  refreshSubject : Subject;
  refreshCalls : nat;        (* calls of authService.refreshToken() *)
  delivered : list (nat * Result AuthTokens)
}.

Definition start : State := mkState false (Open []) 0 [].

Inductive Event :=
| Calls (caller : nat)
| Responds (tokens : AuthTokens)
| RespondsError (error : Err).

(** [refreshToken()], then [subscribe] on the returned observable. *)
Definition refreshToken (caller : nat) (s : State) : State :=
  let s :=
    if negb (refreshInProgress s)
    then mkState true (refreshSubject s) (S (refreshCalls s)) (delivered s)
    else s in
  match refreshSubject s with
  | Open observers =>
      mkState (refreshInProgress s) (Open (observers ++ [caller]))
              (refreshCalls s) (delivered s)
  | Stopped error =>
      mkState (refreshInProgress s) (Stopped error) (refreshCalls s)
              (delivered s ++ [(caller, Error error)])
  end.

Definition notify (r : Result AuthTokens) (observers : list nat)
  : list (nat * Result AuthTokens) :=
  List.map (fun c => (c, r)) observers.

(** [next: tokens => this.refreshSubject.next(tokens)], then [finalize]. *)
Definition onNext (tokens : AuthTokens) (s : State) : State :=
  if negb (refreshInProgress s) then s
  else
    match refreshSubject s with
    | Open observers =>
        mkState false (Open observers) (refreshCalls s)
                (delivered s ++ notify (Next tokens) observers)
    | Stopped error => mkState false (Stopped error) (refreshCalls s) (delivered s)
    end.

(** [error: error => this.refreshSubject.error(error)], then [finalize]. *)
Definition onError (error : Err) (s : State) : State :=
  if negb (refreshInProgress s) then s
  else
    match refreshSubject s with
    | Open observers =>
        mkState false (Stopped error) (refreshCalls s)
                (delivered s ++ notify (Error error) observers)
    | Stopped e => mkState false (Stopped e) (refreshCalls s) (delivered s)
    end.

Definition step (s : State) (e : Event) : State :=
  match e with
  | Calls c => refreshToken c s
  | Responds tokens => onNext tokens s
  | RespondsError error => onError error s
  end.

Definition run (events : list Event) : State := fold_left step events start.

End TokenRefreshService.

(** ** The retry policy, the backoff delay and the error classes in the
    words of the specification

    These definitions follow the text of the specification (sections 4.2
    and 7), not the code; they are what the behaviour of the code is
    compared with. *)

Module Spec.

(** "Retryable: connection failure, timeout, any 5xx status, and 429." *)
Definition retryable (e : Err) : bool :=
  match e with
  | HttpErrorResponse _ status _ =>
      (status =? 0) || ((500 <=? status) && (status <=? 599)) || (status =? 429)
  | TimeoutError => true
  | JsError _ => false
  end.

(** "[retry] is false once [attemptNumber >= maxAttempts]." *)
Definition shouldRetry (maxAttempts attemptNumber : nat) (e : Err) : bool :=
  retryable e && (attemptNumber <? maxAttempts)%nat.

(** "[delay] = [base * 2^(attemptNumber-1)] plus a random jitter in
    [[0, base)]." *)
Definition backoff_delay (base : Z) (attemptNumber : nat) (delay : Z) : Prop :=
  exists jitter, 0 <= jitter < base
                 /\ delay = base * 2 ^ (Z.of_nat attemptNumber - 1) + jitter.

(** "[AuthError{unauthorized, refreshFailed}]": a 401, or a failure of the
    refresh request of the service [s]. *)
Inductive AuthError := unauthorized | refreshFailed.

Definition authError (s : AuthServiceState) (e : Err) : option AuthError :=
  match e with
  | HttpErrorResponse u status _ =>
      if String.eqb u (url (AuthService.refreshRequest s)) then Some refreshFailed
      else if status =? 401 then Some unauthorized
      else None
  | _ => None
  end.

End Spec.

(** ** Invariants used in the proofs *)

(** The gate holds at most [concurrent] requests, starts them in the order in
    which they arrived, and lets a request wait only while every slot is
    taken. *)
Definition gate_inv (concurrent : nat) (q : RequestQueueService.Queue) : Prop :=
  (length (RequestQueueService.active q) <= concurrent)%nat
  /\ RequestQueueService.arrived q
     = RequestQueueService.started q ++ RequestQueueService.buffer q
  /\ (RequestQueueService.closed q = false ->
      RequestQueueService.buffer q <> [] ->
      length (RequestQueueService.active q) = concurrent).

(** At most one refresh request of [AuthService] is on the wire, and one is
    on the wire exactly while [refreshTokenInProgress] is set. *)
Definition single_flight (s : RefreshRace.Sched) : Prop :=
  if refreshTokenInProgress (auth (RefreshRace.world s))
  then length (RefreshRace.inflight s) = 1%nat
  else RefreshRace.inflight s = [].

(** ** BatchConfigService, SmartBatchService and BatchingService *)

Module BatchConfigService.

Definition MAX_BATCH_SIZE : Z := 50.
Definition OPTIMAL_BATCH_SIZE : Z := 20.

(** [Math.ceil(a / b)] for an integer [a >= 0] and an integer [b > 0]. *)
Definition ceil_div (a b : Z) : Z := (a + b - 1) / b.

(** [calculateOptimalBatchSize(items)].  For an empty array the inner
    division is [0 / 0], the result is [NaN]; [None] stands for it. *)
Definition calculateOptimalBatchSize {A} (items : list A) : option Z :=
  let n := Z.of_nat (length items) in
  let batches := ceil_div n OPTIMAL_BATCH_SIZE in
  if batches =? 0 then None
  else Some (Z.min MAX_BATCH_SIZE (ceil_div n batches)).

End BatchConfigService.

Module SmartBatchService.

(** How [batchUpdateWithRetry] ends: with the results, or with an error.
    When both halves of a split fail, [forkJoin] reports the error that
    arrives first; [Failed] lists the errors it can be. *)
Inductive Outcome (B : Type) :=
| Done (results : list B)
| Failed (errors : list Err).
Arguments Done {B} results.
Arguments Failed {B} errors.

Section WithServer.

Context {A B : Type}.

(** The answer of [POST /api/batch] to a batch. *)
Variable processBatch : list A -> Reply (list B).

Definition batchUrl : string := "/api/batch".

(** [forkJoin([left, right]).pipe(map(results => results.flat()))];
    [None] is a half that has not ended. *)
Definition forkJoin_flat (left right : option (Outcome B)) : option (Outcome B) :=
  match left, right with
  | Some (Failed e1), Some (Failed e2) => Some (Failed (e1 ++ e2))
  | Some (Failed e1), _ => Some (Failed e1)
  | _, Some (Failed e2) => Some (Failed e2)
  | Some (Done r1), Some (Done r2) => Some (Done (r1 ++ r2))
  | _, _ => None
  end.

(** [batchUpdateWithRetry(items)]; [fuel] bounds the depth of the recursion
    and [None] is a call that has not ended within it. *)
Fixpoint batchUpdateWithRetry (fuel : nat) (items : list A) : option (Outcome B) :=
  match fuel with
  | O => None
  | S fuel' =>
      match processBatch items with
      | Ok results => Some (Done results)
      | Fail status =>
          if status =? 413 then
            let mid := (length items / 2)%nat in
            let batch1 := take mid items in
            let batch2 := drop mid items in
            forkJoin_flat (batchUpdateWithRetry fuel' batch1)
                          (batchUpdateWithRetry fuel' batch2)
          else Some (Failed [HttpErrorResponse batchUrl status None])
      end
  end.

End WithServer.

End SmartBatchService.

Module BatchingService.

Definition batchSize : nat := 10.

(** What reaches [processBatch] from one window of [bufferTime(batchDelay)]:
    [filter(batch => batch.length > 0)], then
    [map(batch => batch.slice(0, this.batchSize))]. *)
Definition window_batch {A} (batch : list A) : option (list A) :=
  match batch with
  | [] => None
  | _ => Some (take batchSize batch)
  end.

(** The batches given to [processBatch] for successive windows. *)
Definition batches {A} (windows : list (list A)) : list (list A) :=
  omap window_batch windows.

End BatchingService.

(** ** RequestQueueService.batchDownloadFiles

    [forkJoin(fileIds.map(id => this.addToQueue(...)))] subscribes the
    observables of [addToQueue] in the order of the array; the request for
    [fileIds[i]] is named [i]. *)
Definition batchDownloadFiles (fileIds : list string) : list RequestQueueService.Event :=
  List.map RequestQueueService.Subscribes (seq 0 (length fileIds)).

(** The requests [rs] complete one after the other, each while it is
    running. *)
Fixpoint completes_in_turn (concurrent : nat) (q : RequestQueueService.Queue)
         (rs : list nat) : Prop :=
  match rs with
  | [] => True
  | r :: rs' =>
      RequestQueueService.is_active q r = true
      /\ completes_in_turn concurrent (RequestQueueService.innerComplete concurrent q r) rs'
  end.

(** The callers among the events of [TokenRefreshService], in order, and the
    number of answers of [AuthService] among them. *)
Definition token_callers (events : list TokenRefreshService.Event) : list nat :=
  omap (fun e => match e with
                 | TokenRefreshService.Calls c => Some c
                 | _ => None
                 end) events.

Definition token_answers (events : list TokenRefreshService.Event) : nat :=
  length (List.filter (fun e => match e with
                                | TokenRefreshService.Calls _ => false
                                | _ => true
                                end) events).

(** [AuthService.login(credentials)]:
    [http.post(apiUrl + '/auth/login', credentials).pipe(tap(tokens =>
    this.storeTokens(tokens)))]; [credentials] is the body as sent. *)
Definition AuthService_loginRequest (s : AuthServiceState) (credentials : string)
  : HttpRequest :=
  mkRequest "POST" (apiUrl s +:+ "/auth/login") [] ∅ (JsonBody credentials).

Definition AuthService_login (http_post : HttpRequest -> M AuthTokens)
           (credentials : string) : M AuthTokens :=
  fun w =>
    Obs.tap (http_post (AuthService_loginRequest (auth w) credentials))
            (fun tokens => set_auth (AuthService.storeTokens tokens)) w.

(** The cache of [CacheInterceptor] after a sequence of intercepted
    requests, each with the reply of the next handler. *)
Definition CacheInterceptor_after (cache : gmap string HttpResponse)
           (calls : list (HttpRequest * Reply HttpResponse))
  : gmap string HttpResponse :=
  fold_left (fun c call =>
               CacheInterceptor.cacheAfter (CacheInterceptor.intercept c (fst call) (snd call)))
            calls cache.

(** Attempts that fail after the given latencies with the given errors. *)
Definition failed_attempts {A} (failures : list (Z * Err)) : list (Rx.Attempt A) :=
  List.map (fun f => Rx.mkAttempt (fst f) (inr (snd f))) failures.

Definition total_latency (failures : list (Z * Err)) : Z :=
  fold_right (fun f acc => fst f + acc) 0 failures.

(** The instants at which the attempts that fail are subscribed, the first
    one at [now], each one when the one before has failed. *)
Fixpoint attempt_starts (now : Z) (failures : list (Z * Err)) : list Z :=
  match failures with
  | [] => []
  | f :: rest => now :: attempt_starts (now + fst f) rest
  end.

(** ** AdvancedFeaturesComponent

    The fields of the component and its handlers for the two demos that
    call the functions above.  [message] gives [error.message]. *)

Module AdvancedFeaturesComponent.

Section WithPost.

Context {Post : Type}.

Record State := mkState {
  postsWithHeaders : list Post;
  postsWithParams : list Post;
  fullResponse : option (Z * list Post);   (* status and body of the response *)
  retryResponse : option (list Post);
  error : option string;
  userId : Z;
  startIndex : Z;
  limit : Z
}.

(** The component as it is constructed. *)
Definition initial : State := mkState [] [] None None None 1 0 5.

(** [error.message]; the message of an [HttpErrorResponse] is composed by
    Angular from the URL, the status and the status text, and is given by
    [httpMessage]. *)
Variable httpMessage : string -> Z -> string.

Definition message (e : Err) : string :=
  match e with
  | JsError m => m
  | TimeoutError => "Timeout has occurred"
  | HttpErrorResponse u status _ => httpMessage u status
  end.

(** The request of [demonstrateParams()]. *)
Definition demonstrateParams_request (s : State) : HttpRequest :=
  HttpDemoService.getPostsWithParams (Some (userId s)) (Some (startIndex s)) (Some (limit s)).

(** [demonstrateRetry()], once [getPostsWithRetry] has ended. *)
Definition demonstrateRetry (s : State) (script : list (Rx.Attempt (list Post))) : State :=
  match Rx.finished (HttpDemoService.getPostsWithRetry script) with
  | Some (_, inl posts) =>
      mkState (postsWithHeaders s) (postsWithParams s) (fullResponse s)
              (Some posts) None (userId s) (startIndex s) (limit s)
  | Some (_, inr e) =>
      mkState (postsWithHeaders s) (postsWithParams s) (fullResponse s)
              (retryResponse s) (Some ("Retry demo error: " +:+ message e))
              (userId s) (startIndex s) (limit s)
  | None => s
  end.

End WithPost.

Arguments State : clear implicits.

End AdvancedFeaturesComponent.

(** ** HttpDemoService: the CRUD calls, and BasicCrudComponent

    The interface [Post] is declared outside the files at hand; its fields
    are the ones the component uses, with an optional [id] (the form of the
    component holds a post without one). *)

Module BasicCrud.

Record Post := mkPost {
  id : option Z;
  title : string;
  body : string;
  userId : Z
}.

(** A call of [HttpClient]: method, URL and the post sent as body. *)
Record ServiceCall := mkCall {
  callMethod : string;
  callUrl : string;
  payload : option Post
}.

(** [`${id}`] for an optional number. *)
Definition template (i : option Z) : string :=
  match i with
  | Some v => Js.toString v
  | None => "undefined"
  end.

Definition postsUrl : string := HttpDemoService.apiUrl +:+ "/posts".

(** The CRUD methods of [HttpDemoService]. *)
Definition getPosts : ServiceCall := mkCall "GET" postsUrl None.

Definition getPost (i : Z) : ServiceCall :=
  mkCall "GET" (postsUrl +:+ "/" +:+ Js.toString i) None.

Definition createPost (post : Post) : ServiceCall :=
  mkCall "POST" postsUrl (Some post).

Definition updatePost (post : Post) : ServiceCall :=
  mkCall "PUT" (postsUrl +:+ "/" +:+ template (id post)) (Some post).

Definition deletePost (i : Z) : ServiceCall :=
  mkCall "DELETE" (postsUrl +:+ "/" +:+ Js.toString i) None.

(** The fields of [BasicCrudComponent]. *)
Record State := mkState {
  posts : list Post;
  currentPost : Post;
  isEditing : bool
}.

Definition blankPost : Post := mkPost None "" "" 1.

Definition resetForm (s : State) : State := mkState (posts s) blankPost false.

Definition editPost (post : Post) (s : State) : State := mkState (posts s) post true.

(** [p.id === updatedPost.id] on optional numbers. *)
Definition same_id (a b : option Z) : bool :=
  match a, b with
  | Some x, Some y => x =? y
  | None, None => true
  | _, _ => false
  end.

(** [index = posts.findIndex(p => p.id === updatedPost.id)], then
    [posts[index] = updatedPost] when the index is not -1. *)
Fixpoint replace_found (updatedPost : Post) (l : list Post) : list Post :=
  match l with
  | [] => []
  | p :: l' =>
      if same_id (id p) (id updatedPost) then updatedPost :: l'
      else p :: replace_found updatedPost l'
  end.

(** [this.isEditing && this.currentPost.id] *)
Definition updates (s : State) : bool :=
  isEditing s && Js.truthy (id (currentPost s)).

(** The call that [onSubmit()] makes. *)
Definition onSubmit_call (s : State) : ServiceCall :=
  if updates s then updatePost (currentPost s) else createPost (currentPost s).

(** The component after the answer to the call of [onSubmit()]. *)
Definition onSubmit (s : State) (reply : Reply Post) : State :=
  match reply with
  | Ok answer =>
      if updates s
      then resetForm (mkState (replace_found answer (posts s)) (currentPost s) (isEditing s))
      else resetForm (mkState (answer :: posts s) (currentPost s) (isEditing s))
  | Fail _ => s
  end.

(** The component after the answer to [deletePost(id)]. *)
Definition onDelete (i : Z) (s : State) (reply : Reply unit) : State :=
  match reply with
  | Ok _ =>
      mkState (List.filter (fun post => negb (same_id (id post) (Some i))) (posts s))
              (currentPost s) (isEditing s)
  | Fail _ => s
  end.

End BasicCrud.
(** * Properties *)

(** ** Strings *)

Lemma prefix_refl (s : string) : String.prefix s s = true.
Proof.
  induction s as [|a s IH]; simpl; [reflexivity|].
  destruct (ascii_dec a a); [exact IH | congruence].
Qed.

Lemma prefix_append (s t : string) : String.prefix s (s +:+ t) = true.
Proof.
  induction s as [|a s IH]; simpl.
  - destruct t; reflexivity.
  - destruct (ascii_dec a a); [exact IH | congruence].
Qed.

Lemma includes_prefix (s sub : string) :
  String.prefix sub s = true -> Js.includes s sub = true.
Proof. intros H. destruct s; cbn [Js.includes]; rewrite H; reflexivity. Qed.

Lemma includes_append (a sub b : string) :
  Js.includes (a +:+ sub +:+ b) sub = true.
Proof.
  induction a as [|c a IH].
  - change ("" +:+ sub +:+ b) with (sub +:+ b).
    apply includes_prefix, prefix_append.
  - change (String c a +:+ sub +:+ b) with (String c (a +:+ sub +:+ b)).
    cbn [Js.includes]. rewrite IH. apply orb_true_r.
Qed.

Lemma includes_suffix (a sub : string) : Js.includes (a +:+ sub) sub = true.
Proof.
  induction a as [|c a IH].
  - change ("" +:+ sub) with sub.
    apply includes_prefix, prefix_refl.
  - change (String c a +:+ sub) with (String c (a +:+ sub)).
    cbn [Js.includes]. rewrite IH. apply orb_true_r.
Qed.

Lemma prefix_inv (sub : string) :
  forall s, String.prefix sub s = true -> exists b, s = sub +:+ b.
Proof.
  induction sub as [|c sub IH]; intros s H.
  - exists s. reflexivity.
  - destruct s as [|d s]; simpl in H; [discriminate|].
    destruct (ascii_dec c d) as [->|]; [|discriminate].
    destruct (IH s H) as [b ->]. exists b. reflexivity.
Qed.

(** [Js.includes s sub] holds exactly when [sub] occurs in [s]. *)
Lemma includes_spec (s sub : string) :
  Js.includes s sub = true <-> exists a b, s = a +:+ sub +:+ b.
Proof.
  split.
  - induction s as [|c s IH]; cbn [Js.includes]; intros H.
    + rewrite orb_false_r in H. destruct (prefix_inv _ _ H) as [b ->].
      exists "", b. reflexivity.
    + apply orb_true_iff in H as [H|H].
      * destruct (prefix_inv _ _ H) as [b ->]. exists "", b. reflexivity.
      * destruct (IH H) as (a & b & ->). exists (String c a), b. reflexivity.
  - intros (a & b & ->). apply includes_append.
Qed.

Lemma isAuthEndpoint_spec (u : string) :
  AuthInterceptor.isAuthEndpoint u = true <->
  (exists a b, u = a +:+ "/auth/login" +:+ b)
  \/ (exists a b, u = a +:+ "/auth/refresh" +:+ b).
Proof.
  unfold AuthInterceptor.isAuthEndpoint.
  rewrite orb_true_iff, !includes_spec. reflexivity.
Qed.

Example includes_examples :
  Js.includes "https://api/auth/login?x=1" "/auth/login" = true
  /\ Js.includes "https://api/authx/login" "/auth/login" = false
  /\ Js.includes "abc" "" = true.
Proof. repeat split; reflexivity. Qed.

Example toLowerCase_example : Js.toLowerCase "Authorization" = "authorization".
Proof. reflexivity. Qed.

Example toString_examples :
  Js.toString 0 = "0" /\ Js.toString 125 = "125" /\ Js.toString (-12) = "-12".
Proof. repeat split; reflexivity. Qed.

(** ** HttpDemoService.getPostsWithParams *)

Example getPostsWithParams_demo :
  params (HttpDemoService.getPostsWithParams (Some 1) (Some 0) (Some 5))
  = [("userId", "1"); ("_start", "0"); ("_limit", "5")].
Proof. reflexivity. Qed.

Lemma getPostsWithParams_userId (v : Z) (_start _limit : option Z) :
  v <> 0 ->
  params (HttpDemoService.getPostsWithParams (Some v) _start _limit)
  = ("userId", Js.toString v)
      :: params (HttpDemoService.getPostsWithParams None _start _limit).
Proof.
  intros Hv. unfold HttpDemoService.getPostsWithParams, Js.truthy.
  destruct (Z.eqb_spec v 0) as [->|_]; [congruence|].
  destruct _start, _limit; reflexivity.
Qed.

(** C9. With [userId = 0] the truthiness test drops the user filter: the
    request is the one built without a user id and no [userId] key is among
    its query parameters, while a [_start] and a [_limit] that are given are
    appended whatever their value, 0 included, as ["0"]. *)
Theorem C9_userId_zero_not_sent (_start _limit : option Z) (s l : Z) :
  HttpDemoService.getPostsWithParams (Some 0) _start _limit
  = HttpDemoService.getPostsWithParams None _start _limit
  /\ ~ In "userId"
       (List.map fst (params (HttpDemoService.getPostsWithParams (Some 0) _start _limit)))
  /\ params (HttpDemoService.getPostsWithParams (Some 0) (Some s) (Some l))
     = [("_start", Js.toString s); ("_limit", Js.toString l)]
  /\ params (HttpDemoService.getPostsWithParams (Some 0) (Some 0) (Some 0))
     = [("_start", "0"); ("_limit", "0")].
Proof.
  split; [reflexivity|]. split; [|split; reflexivity].
  unfold HttpDemoService.getPostsWithParams; simpl.
  destruct _start, _limit; simpl; intros H;
    repeat (destruct H as [H|H]; [discriminate H|]); exact H.
Qed.

(** ** HttpDemoService.getPostsWithRetry *)

Section Retry.

Context {A : Type}.

Lemma retry_subscribes_now (count soFar : nat) (now : Z)
      (script : list (Rx.Attempt A)) :
  exists later,
    Rx.subscriptions (Rx.retry count soFar now script) = now :: later.
Proof.
  destruct script as [|a rest]; simpl; [eauto|].
  destruct (Rx.outcome a); [eauto|].
  destruct (Rx.retry_resubscribes count soFar e); simpl; eauto.
Qed.

Lemma retry_subscriptions_bound (count : nat) (script : list (Rx.Attempt A)) :
  forall (soFar : nat) (now : Z),
    (soFar <= count)%nat ->
    (length (Rx.subscriptions (Rx.retry count soFar now script))
     <= S (count - soFar))%nat.
Proof.
  induction script as [|a rest IH]; intros soFar now Hle; simpl; [lia|].
  destruct (Rx.outcome a) as [v|err]; simpl; [lia|].
  unfold Rx.retry_resubscribes.
  destruct (Nat.ltb_spec soFar count) as [Hlt|Hge]; simpl; [|lia].
  specialize (IH (S soFar) (now + Rx.latency a) ltac:(lia)). lia.
Qed.

Lemma timeout_subscriptions (each : Z) (r : Rx.Run A) :
  (length (Rx.subscriptions (Rx.timeout each r))
   <= length (Rx.subscriptions r))%nat.
Proof.
  unfold Rx.timeout.
  destruct (Rx.finished r) as [[t o]|]; [destruct (t <? each)|];
    simpl; try lia; apply List.filter_length_le.
Qed.

Lemma catchError_subscriptions (h : Err -> A + Err) (r : Rx.Run A) :
  Rx.subscriptions (Rx.catchError h r) = Rx.subscriptions r.
Proof.
  unfold Rx.catchError.
  destruct (Rx.finished r) as [[t [v|e]]|]; reflexivity.
Qed.

(** A call is attempted at most four times: the first subscription and
    three retries. *)
Lemma getPostsWithRetry_attempts (script : list (Rx.Attempt A)) :
  (length (Rx.subscriptions (HttpDemoService.getPostsWithRetry script)) <= 4)%nat.
Proof.
  unfold HttpDemoService.getPostsWithRetry.
  rewrite catchError_subscriptions.
  etransitivity; [apply timeout_subscriptions|].
  apply (retry_subscriptions_bound 3 script 0%nat 0). lia.
Qed.

(** A failure that arrives before the timeout is followed by a second
    subscription, whatever the error is. *)
Lemma getPostsWithRetry_resubscribes (e : Err) (l : Z) (rest : list (Rx.Attempt A)) :
  0 <= l < 5000 ->
  (2 <= length (Rx.subscriptions
                  (HttpDemoService.getPostsWithRetry
                     (Rx.mkAttempt l (inr e) :: rest))))%nat.
Proof.
  intros Hl. unfold HttpDemoService.getPostsWithRetry.
  rewrite catchError_subscriptions. simpl.
  destruct (retry_subscribes_now 3 1 (0 + l) rest) as [later Hsub].
  unfold Rx.timeout; simpl. rewrite Hsub.
  destruct (Rx.finished (Rx.retry 3 1 (0 + l) rest)) as [[t o]|].
  - destruct (t <? 5000); simpl; [lia|].
    destruct (Z.ltb_spec (0 + l) 5000); simpl; lia.
  - simpl. destruct (Z.ltb_spec (0 + l) 5000); simpl; lia.
Qed.

End Retry.

Example getPostsWithRetry_500_500_200 :
  HttpDemoService.getPostsWithRetry
    [Rx.mkAttempt 10 (inr (HttpErrorResponse "u" 500 None));
     Rx.mkAttempt 10 (inr (HttpErrorResponse "u" 500 None));
     Rx.mkAttempt 10 (inl "posts")]
  = Rx.mkRun [0; 10; 20] (Some (30, inl "posts")).
Proof. reflexivity. Qed.

Example getPostsWithRetry_timeout_is_final :
  HttpDemoService.getPostsWithRetry
    [Rx.mkAttempt 3000 (inr (HttpErrorResponse "u" 500 None));
     Rx.mkAttempt 3000 (inr (HttpErrorResponse "u" 500 None));
     Rx.mkAttempt 10 (inl "posts")]
  = Rx.mkRun [0; 3000]
      (Some (5000, inr (JsError "Failed to fetch posts after 3 retries"))).
Proof. reflexivity. Qed.

(** The run of [retry(3)] on failures followed by a success, and on
    failures that use up the retries: the instants of all the attempts and
    the final notification. *)
Lemma retry_after_failures {A} (failures : list (Z * Err)) (l : Z) (v : A)
      (rest : list (Rx.Attempt A)) :
  forall (soFar : nat) (now : Z),
    (soFar + length failures <= 3)%nat ->
    Rx.retry 3 soFar now (failed_attempts failures ++ Rx.mkAttempt l (inl v) :: rest)
    = Rx.mkRun (attempt_starts now failures ++ [now + total_latency failures])
               (Some (now + total_latency failures + l, inl v)).
Proof.
  induction failures as [|[lf e] failures IH]; intros soFar now Hle; simpl.
  - rewrite Z.add_0_r. reflexivity.
  - unfold Rx.retry_resubscribes.
    destruct (Nat.ltb_spec soFar 3) as [_|Hge]; [|simpl in Hle; lia].
    simpl in Hle. rewrite (IH (S soFar) (now + lf) ltac:(lia)). simpl.
    rewrite !Z.add_assoc. reflexivity.
Qed.

Lemma retry_gives_up {A} (failures : list (Z * Err)) (rest : list (Rx.Attempt A))
      (d : Z * Err) :
  forall (soFar : nat) (now : Z),
    (soFar + length failures = 4)%nat ->
    (soFar <= 3)%nat ->
    Rx.retry 3 soFar now (failed_attempts failures ++ rest)
    = Rx.mkRun (attempt_starts now failures)
               (Some (now + total_latency failures, inr (snd (List.last failures d)))).
Proof.
  induction failures as [|[lf e] failures IH]; intros soFar now Hlen Hle;
    [simpl in Hlen; lia|].
  cbn [failed_attempts List.map app Rx.retry Rx.outcome Rx.latency fst snd].
  unfold Rx.retry_resubscribes.
  destruct (Nat.ltb_spec soFar 3) as [Hlt|Hge].
  - simpl in Hlen.
    change (List.map (fun f => Rx.mkAttempt (fst f) (inr (snd f))) failures ++ rest)
      with (failed_attempts (A:=A) failures ++ rest).
    rewrite (IH (S soFar) (now + lf) ltac:(lia) ltac:(lia)).
    destruct failures as [|f failures]; [simpl in Hlen; lia|].
    cbn [Rx.subscriptions Rx.finished attempt_starts total_latency fold_right fst].
    change (List.last ((lf, e) :: f :: failures) d) with (List.last (f :: failures) d).
    rewrite !Z.add_assoc. reflexivity.
  - destruct failures as [|f failures]; [|simpl in Hlen; lia].
    simpl. rewrite Z.add_0_r. reflexivity.
Qed.

(** C4, as amended.  [getPostsWithRetry] makes a new attempt after every
    failure, whatever the error is, as long as fewer than three retries have
    been made and the 5000 milliseconds of the timeout have not passed.
    After at most three failures and a success that all arrive in time it
    delivers the posts, having made one attempt for each failure and one
    more, each at the instant the one before failed.  After four failures
    that arrive in time it has made exactly four attempts and ends with the
    error "Failed to fetch posts after 3 retries".  When the success would
    arrive at 5000 milliseconds or later it ends at 5000 milliseconds with
    that error, and no attempt starts from then on.  In every case at most
    four attempts are made. *)
Theorem C4_retry_ignores_error_class
        (A : Type) (failures : list (Z * Err)) (l : Z) (v : A)
        (rest script : list (Rx.Attempt A)) :
  ((length failures <= 3)%nat ->
   total_latency failures + l < 5000 ->
   HttpDemoService.getPostsWithRetry
     (failed_attempts failures ++ Rx.mkAttempt l (inl v) :: rest)
   = Rx.mkRun (attempt_starts 0 failures ++ [total_latency failures])
              (Some (total_latency failures + l, inl v)))
  /\ (length failures = 4%nat ->
      total_latency failures < 5000 ->
      HttpDemoService.getPostsWithRetry (failed_attempts failures ++ rest)
      = Rx.mkRun (attempt_starts 0 failures)
                 (Some (total_latency failures,
                        inr (JsError "Failed to fetch posts after 3 retries"))))
  /\ ((length failures <= 3)%nat ->
      5000 <= total_latency failures + l ->
      HttpDemoService.getPostsWithRetry
        (failed_attempts failures ++ Rx.mkAttempt l (inl v) :: rest)
      = Rx.mkRun (List.filter (fun s => s <? 5000)
                              (attempt_starts 0 failures ++ [total_latency failures]))
                 (Some (5000, inr (JsError "Failed to fetch posts after 3 retries"))))
  /\ (length (Rx.subscriptions (HttpDemoService.getPostsWithRetry script)) <= 4)%nat.
Proof.
  split; [|split; [|split]].
  - intros Hlen Htime. unfold HttpDemoService.getPostsWithRetry.
    rewrite (retry_after_failures failures l v rest 0%nat 0 ltac:(lia)).
    unfold Rx.timeout, Rx.catchError. cbn [Rx.finished Rx.subscriptions].
    rewrite !Z.add_0_l.
    destruct (Z.ltb_spec (total_latency failures + l) 5000) as [_|Hge]; [|lia].
    reflexivity.
  - intros Hlen Htime. unfold HttpDemoService.getPostsWithRetry.
    rewrite (retry_gives_up failures rest (0, TimeoutError) 0%nat 0 ltac:(lia) ltac:(lia)).
    unfold Rx.timeout, Rx.catchError. cbn [Rx.finished Rx.subscriptions].
    rewrite !Z.add_0_l.
    destruct (Z.ltb_spec (total_latency failures) 5000) as [_|Hge]; [|lia].
    reflexivity.
  - intros Hlen Htime. unfold HttpDemoService.getPostsWithRetry.
    rewrite (retry_after_failures failures l v rest 0%nat 0 ltac:(lia)).
    unfold Rx.timeout, Rx.catchError. cbn [Rx.finished Rx.subscriptions].
    rewrite !Z.add_0_l.
    destruct (Z.ltb_spec (total_latency failures + l) 5000) as [Hlt|_]; [lia|].
    reflexivity.
  - apply getPostsWithRetry_attempts.
Qed.

Lemma C4_retry_ignores_error_class_witness :
  let failures := [(10, HttpErrorResponse "u" 404 None);
                   (20, HttpErrorResponse "u" 500 None);
                   (30, HttpErrorResponse "u" 429 None)] in
  ((length failures <= 3)%nat /\ total_latency failures + 40 < 5000)
  /\ HttpDemoService.getPostsWithRetry
       (failed_attempts failures ++ [Rx.mkAttempt 40 (inl "posts")])
     = Rx.mkRun [0; 10; 30; 60] (Some (100, inl "posts")).
Proof.
  intros failures.
  assert (Hlen : (length failures <= 3)%nat) by (simpl; lia).
  assert (Htime : total_latency failures + 40 < 5000) by (simpl; lia).
  split; [split; assumption|].
  exact (proj1 (C4_retry_ignores_error_class string failures 40 "posts" [] [])
               Hlen Htime).
Defined.

(** C4 as the specification states it fails: a 404 on the first attempt is a
    client error that the policy of the specification never retries, yet
    [getPostsWithRetry] makes a second attempt and succeeds; and after four
    failures with status 500 four attempts have been made, one more than a
    [maxAttempts] of three allows. *)
Lemma C4_counterexample :
  Spec.shouldRetry 3 1 (HttpErrorResponse "u" 404 None) = false
  /\ HttpDemoService.getPostsWithRetry
       [Rx.mkAttempt 10 (inr (HttpErrorResponse "u" 404 None));
        Rx.mkAttempt 10 (inl "posts")]
     = Rx.mkRun [0; 10] (Some (20, inl "posts"))
  /\ Spec.shouldRetry 3 3 (HttpErrorResponse "u" 500 None) = false
  /\ Rx.subscriptions
       (HttpDemoService.getPostsWithRetry
          [Rx.mkAttempt 10 (inr (HttpErrorResponse "u" 500 None));
           Rx.mkAttempt 10 (inr (HttpErrorResponse "u" 500 None));
           Rx.mkAttempt 10 (inr (HttpErrorResponse "u" 500 None));
           Rx.mkAttempt 10 (inr (HttpErrorResponse "u" 500 None) : string + Err)])
     = [0; 10; 20; 30].
Proof. repeat split; reflexivity. Qed.

(** ** Delays before a retry: retryWithBackoff and BatchErrorHandler *)

Lemma onError_retries (maxRetries backoffMs : Z) (error : Err) (index : nat) :
  Z.of_nat index + 1 <= maxRetries ->
  RetryWithBackoff.onError maxRetries backoffMs error index
  = Timer ((Z.of_nat index + 1) * backoffMs).
Proof.
  intros H. unfold RetryWithBackoff.onError.
  destruct (Z.ltb_spec maxRetries (Z.of_nat index + 1)); [lia | reflexivity].
Qed.

Lemma onError_gives_up (maxRetries backoffMs : Z) (error : Err) (index : nat) :
  maxRetries < Z.of_nat index + 1 ->
  RetryWithBackoff.onError maxRetries backoffMs error index = ThrowError error.
Proof.
  intros H. unfold RetryWithBackoff.onError.
  destruct (Z.ltb_spec maxRetries (Z.of_nat index + 1)); [reflexivity | lia].
Qed.

Lemma handleBatchError_429 (u : string) (retryAfter : option Z) :
  BatchErrorHandler.handleBatchError (HttpErrorResponse u 429 retryAfter)
  = Timer (BatchErrorHandler.retryAfterMs retryAfter).
Proof. reflexivity. Qed.

Lemma handleBatchError_other (u : string) (status : Z) (retryAfter : option Z) :
  status <> 429 ->
  BatchErrorHandler.handleBatchError (HttpErrorResponse u status retryAfter)
  = ThrowError (HttpErrorResponse u status retryAfter).
Proof.
  intros H. unfold BatchErrorHandler.handleBatchError.
  destruct (Z.eqb_spec status 429); [contradiction | reflexivity].
Qed.

Example retryWithBackoff_500_500_200 :
  RetryWithBackoff.retryWithBackoff
    [inr (HttpErrorResponse "u" 500 None); inr (HttpErrorResponse "u" 500 None);
     inl "data"]
  = ([1000; 2000], Next "data").
Proof. reflexivity. Qed.

Example retryWithBackoff_gives_up :
  RetryWithBackoff.retryWithBackoff
    [inr (HttpErrorResponse "u" 500 None); inr (HttpErrorResponse "u" 500 None);
     inr (HttpErrorResponse "u" 500 None);
     inr (HttpErrorResponse "u" 503 None) : string + Err]
  = ([1000; 2000; 3000], Error (HttpErrorResponse "u" 503 None)).
Proof. reflexivity. Qed.

Example retryBatch_delays :
  List.map (BatchErrorHandler.retryBatch_onError TimeoutError) [0; 1; 2; 3]%nat
  = [Timer 2000; Timer 4000; Timer 8000; ThrowError TimeoutError].
Proof. reflexivity. Qed.

(** C5, as amended.  A 429 that carries a Retry-After hint of [seconds] is
    retried after exactly [seconds * 1000] milliseconds, with no backoff
    formula.  In [retryWithBackoff] the delay before retry number
    [index + 1] is [(index + 1) * backoffMs]: linear in the number of the
    retry, without jitter, and never more than [maxRetries * backoffMs]. *)
Theorem C5_retry_delay
        (u : string) (seconds : Z)
        (maxRetries backoffMs : Z) (error : Err) (index : nat) :
  0 <= backoffMs ->
  Z.of_nat index + 1 <= maxRetries ->
  BatchErrorHandler.handleBatchError (HttpErrorResponse u 429 (Some seconds))
  = Timer (seconds * 1000)
  /\ RetryWithBackoff.onError maxRetries backoffMs error index
     = Timer ((Z.of_nat index + 1) * backoffMs)
  /\ (Z.of_nat index + 1) * backoffMs <= maxRetries * backoffMs.
Proof.
  intros Hb Hi. split; [reflexivity|]. split.
  - apply onError_retries, Hi.
  - apply Z.mul_le_mono_nonneg_r; assumption.
Qed.

Lemma C5_retry_delay_witness :
  (0 <= 1000 /\ Z.of_nat 2 + 1 <= 3)
  /\ BatchErrorHandler.handleBatchError (HttpErrorResponse "u" 429 (Some 2))
     = Timer 2000
  /\ RetryWithBackoff.onError 3 1000 (HttpErrorResponse "u" 500 None) 2
     = Timer 3000
  /\ 3000 <= 3000.
Proof.
  split; [lia|].
  apply (C5_retry_delay "u" 2 3 1000 (HttpErrorResponse "u" 500 None) 2); lia.
Defined.

(** C5 as the specification states it fails: after the third failure
    [retryWithBackoff(3, 1000)] waits 3000 ms, which is not
    [1000 * 2^(3-1)] plus a jitter in [[0, 1000)]. *)
Lemma C5_counterexample :
  RetryWithBackoff.onError 3 1000 (HttpErrorResponse "u" 500 None) 2 = Timer 3000
  /\ ~ Spec.backoff_delay 1000 3 3000.
Proof.
  split; [reflexivity|].
  intros [jitter [Hj Heq]]. simpl in Heq. lia.
Qed.

(** ** RequestQueueService: the bound and the order of admission *)

Section Gate.

Import RequestQueueService.

Variable concurrent : nat.

Lemma remove_first_length (r : nat) (l : list nat) :
  (length (remove_first r l) <= length l)%nat.
Proof.
  induction l as [|x l IH]; simpl; [lia|].
  destruct (x =? r)%nat; simpl; lia.
Qed.

Lemma drain_inv (waiting : list nat) :
  forall q,
    (length (active q) <= concurrent)%nat ->
    arrived q = started q ++ waiting ->
    gate_inv concurrent (drain concurrent waiting q)
    /\ closed (drain concurrent waiting q) = closed q.
Proof.
  induction waiting as [|r rest IH]; intros q Hlen Harr.
  - simpl. repeat split; simpl; try assumption. congruence.
  - simpl. destruct (Nat.ltb_spec (length (active q)) concurrent) as [Hlt|Hge].
    + apply (IH (doInnerSub (mkQueue (active q) rest (started q) (arrived q) (closed q)) r)).
      * simpl. rewrite length_app. simpl. lia.
      * simpl. rewrite Harr, <- app_assoc. reflexivity.
    + repeat split; simpl; try assumption. intros _ _. lia.
Qed.

Lemma empty_inv : gate_inv concurrent empty.
Proof. repeat split; simpl; try lia. congruence. Qed.

Lemma step_inv (q : Queue) (e : Event) :
  gate_inv concurrent q -> gate_inv concurrent (step concurrent q e).
Proof.
  intros Hinv. pose proof Hinv as (Hlen & Harr & Hfull).
  destruct e as [r|r|r]; simpl.
  - unfold outerNext. destruct (closed q) eqn:Hc; [exact Hinv|].
    simpl. destruct (Nat.ltb_spec (length (active q)) concurrent) as [Hlt|Hge].
    + assert (Hb : buffer q = []).
      { destruct (buffer q) as [|b bs] eqn:Hb; [reflexivity|].
        specialize (Hfull eq_refl ltac:(discriminate)). lia. }
      repeat split; simpl.
      * rewrite length_app. simpl. lia.
      * rewrite Harr, Hb, !app_nil_r. reflexivity.
      * intros _ Hne. rewrite Hb in Hne. congruence.
    + repeat split; simpl.
      * assumption.
      * rewrite Harr, app_assoc. reflexivity.
      * intros _ _. lia.
  - unfold innerComplete.
    destruct (closed q || negb (is_active q r)); [exact Hinv|].
    apply drain_inv; simpl.
    + pose proof (remove_first_length r (active q)). lia.
    + exact Harr.
  - unfold innerError.
    destruct (closed q || negb (is_active q r)); [exact Hinv|].
    repeat split; simpl; [lia | exact Harr | discriminate].
Qed.

Lemma run_from_inv (events : list Event) :
  forall q, gate_inv concurrent q ->
            gate_inv concurrent (fold_left (step concurrent) events q).
Proof.
  induction events as [|e events IH]; intros q Hq; simpl; [exact Hq|].
  apply IH, step_inv, Hq.
Qed.

Lemma run_inv (events : list Event) : gate_inv concurrent (run concurrent events).
Proof. apply run_from_inv, empty_inv. Qed.

End Gate.

Example queue_of_three :
  let q := RequestQueueService.run RequestQueueService.concurrentRequests
             [RequestQueueService.Subscribes 1; RequestQueueService.Subscribes 2;
              RequestQueueService.Subscribes 3; RequestQueueService.Subscribes 4;
              RequestQueueService.Subscribes 5; RequestQueueService.Completes 2]%nat in
  RequestQueueService.active q = [1; 3; 4]%nat
  /\ RequestQueueService.buffer q = [5]%nat
  /\ RequestQueueService.started q = [1; 2; 3; 4]%nat.
Proof. repeat split; reflexivity. Qed.

(** C6. After any sequence of arrivals, completions and failures, the
    number of requests holding a slot is at most the bound of the gate, the
    requests have been started in the order in which they arrived (those
    that arrived and are not started are the buffer, in order of arrival),
    and with a bound of one at most one request runs at a time. *)
Theorem C6_gate_bound_and_fifo
        (concurrent : nat) (events : list RequestQueueService.Event) :
  let q := RequestQueueService.run concurrent events in
  (length (RequestQueueService.active q) <= concurrent)%nat
  /\ RequestQueueService.arrived q
     = RequestQueueService.started q ++ RequestQueueService.buffer q
  /\ (length (RequestQueueService.active (RequestQueueService.run 1 events)) <= 1)%nat.
Proof.
  simpl. destruct (run_inv concurrent events) as (Hlen & Harr & _).
  destruct (run_inv 1 events) as (Hone & _ & _).
  repeat split; assumption.
Qed.

(** The service uses a bound of three. *)
Corollary queue_holds_at_most_three (events : list RequestQueueService.Event) :
  (length (RequestQueueService.active
             (RequestQueueService.run RequestQueueService.concurrentRequests events))
   <= 3)%nat.
Proof.
  destruct (run_inv RequestQueueService.concurrentRequests events) as (H & _).
  exact H.
Qed.

(** A request waits only while every slot is taken. *)
Lemma gate_waits_only_when_full
      (concurrent : nat) (events : list RequestQueueService.Event) :
  let q := RequestQueueService.run concurrent events in
  RequestQueueService.closed q = false ->
  RequestQueueService.buffer q <> [] ->
  length (RequestQueueService.active q) = concurrent.
Proof.
  simpl. destruct (run_inv concurrent events) as (_ & _ & Hfull). exact Hfull.
Qed.

(** ** CacheService: freshness of what the cache returns *)

Lemma get_Some (cache : gmap string CacheService.CacheEntry) (url : string)
      (now : Z) (d : string) :
  CacheService.get cache url now = Some d <->
  exists entry, cache !! url = Some entry
                /\ CacheService.data entry = d
                /\ now - CacheService.timestamp entry <= CacheService.MAX_CACHE_AGE.
Proof.
  unfold CacheService.get, CacheService.isExpired. split.
  - destruct (cache !! url) as [entry|]; [|discriminate].
    destruct (Z.ltb_spec CacheService.MAX_CACHE_AGE (now - CacheService.timestamp entry));
      simpl; [discriminate|].
    intros [= <-]. exists entry. auto.
  - intros (entry & -> & <- & Hage).
    destruct (Z.ltb_spec CacheService.MAX_CACHE_AGE (now - CacheService.timestamp entry));
      simpl; [lia | reflexivity].
Qed.



Lemma getData_miss (cache : gmap string CacheService.CacheEntry) (url : string)
      (now : Z) (answer : CacheService.Answer) (r : string) :
  CacheService.get cache url now = None ->
  CacheService.response answer = inl r ->
  CacheService.getData cache url now answer
  = CacheService.mkOutcome
      (Next r)
      (<[url := CacheService.mkEntry r (CacheService.arrival answer)]> cache) 1
      (CacheService.arrival answer).
Proof.
  intros H Hr.
  unfold CacheService.getData, CacheService.getData_subscribed, CacheService.getData_answered.
  rewrite H, Hr. reflexivity.
Qed.


(** A call of [getData] that nothing overlaps is a read followed by the
    arrival of its answer. *)
Lemma getData_timeline (cache : gmap string CacheService.CacheEntry) (url : string)
      (now : Z) (answer : CacheService.Answer) :
  let o := CacheService.getData cache url now answer in
  let s := CacheTimeline.run cache
             [CacheTimeline.Reads url now;
              CacheTimeline.Arrives url (CacheService.arrival answer)
                                    (CacheService.response answer)] in
  CacheTimeline.cache s = CacheService.cacheAfter o
  /\ CacheTimeline.httpCalls s = CacheService.httpCalls o
  /\ CacheTimeline.delivered s = [(url, CacheService.value o)]
  /\ CacheTimeline.inflight s = [].
Proof.
  simpl. unfold CacheTimeline.run, CacheTimeline.start. simpl fold_left.
  unfold CacheTimeline.reads, CacheService.getData. simpl.
  destruct (CacheService.getData_subscribed cache url now) as [d|]; simpl.
  - unfold CacheTimeline.arrives. simpl. auto.
  - unfold CacheTimeline.arrives. simpl. rewrite !String.eqb_refl. simpl.
    destruct answer as [t resp]. simpl. auto.
Qed.







(** ** CacheInterceptor: requests that are not GETs *)

Lemma intercept_not_GET (cache : gmap string HttpResponse) (req : HttpRequest)
      (reply : Reply HttpResponse) :
  method req <> "GET" ->
  CacheInterceptor.intercept cache req reply
  = CacheInterceptor.mkOutcome (reply_result (url req) reply) cache [req].
Proof.
  intros Hm. unfold CacheInterceptor.intercept.
  destruct (String.eqb_spec (method req) "GET"); [contradiction | reflexivity].
Qed.

(** C8, as amended.  A request whose method is not GET goes to the next
    handler and its outcome does not depend on the cache; the cache is left
    exactly as it was, nothing is added and nothing is removed, so every read
    is handled after the write as it would have been before it. *)
Theorem C8_write_leaves_cache_alone
        (cache other : gmap string HttpResponse) (req read : HttpRequest)
        (reply reply' : Reply HttpResponse) :
  method req <> "GET" ->
  let write := CacheInterceptor.intercept cache req reply in
  CacheInterceptor.forwarded write = [req]
  /\ CacheInterceptor.value write = reply_result (url req) reply
  /\ CacheInterceptor.value write
     = CacheInterceptor.value (CacheInterceptor.intercept other req reply)
  /\ CacheInterceptor.cacheAfter write = cache
  /\ CacheInterceptor.intercept (CacheInterceptor.cacheAfter write) read reply'
     = CacheInterceptor.intercept cache read reply'.
Proof.
  intros Hm. simpl. rewrite !(intercept_not_GET _ _ _ Hm). simpl. auto.
Qed.

Lemma C8_write_leaves_cache_alone_witness :
  let put := mkRequest "PUT" "/api/posts/1" [] ∅ (JsonBody "{}") in
  let get := mkRequest "GET" "/api/posts/1" [] ∅ NoBody in
  let cache : gmap string HttpResponse :=
    {[ "/api/posts/1" := mkResponse 200 "old" ]} in
  method put <> "GET"
  /\ CacheInterceptor.forwarded
       (CacheInterceptor.intercept cache put (Ok (mkResponse 200 "new"))) = [put]
  /\ CacheInterceptor.cacheAfter
       (CacheInterceptor.intercept cache put (Ok (mkResponse 200 "new"))) = cache.
Proof.
  intros put get cache.
  assert (Hm : method put <> "GET") by discriminate.
  split; [exact Hm|].
  pose proof (C8_write_leaves_cache_alone cache ∅ put get
                (Ok (mkResponse 200 "new")) (Ok (mkResponse 200 "new")) Hm)
    as (Hf & _ & _ & Hc & _).
  split; [exact Hf | exact Hc].
Defined.

(** C8 as the specification states it fails: after a GET of a post has been
    cached and a PUT to the same URL has succeeded, a second GET is answered
    from the cache with the response from before the write, and no request
    reaches the next handler. *)
Lemma C8_counterexample :
  let get := mkRequest "GET" "/api/posts/1" [] ∅ NoBody in
  let put := mkRequest "PUT" "/api/posts/1" [] ∅ (JsonBody "{}") in
  List.map (fun o => (CacheInterceptor.value o, CacheInterceptor.forwarded o))
    (CacheInterceptor.serve ∅
       [(get, Ok (mkResponse 200 "old"));
        (put, Ok (mkResponse 200 "new"));
        (get, Ok (mkResponse 200 "new"))])
  = [(Next (mkResponse 200 "old"), [get]);
     (Next (mkResponse 200 "new"), [put]);
     (Next (mkResponse 200 "old"), [])].
Proof. vm_compute. reflexivity. Qed.

(** ** AuthInterceptor and AuthService, one request at a time *)

Lemma refresh_url_is_auth_endpoint (s : AuthServiceState) :
  AuthInterceptor.isAuthEndpoint (url (AuthService.refreshRequest s)) = true.
Proof.
  unfold AuthInterceptor.isAuthEndpoint, AuthService.refreshRequest. simpl url.
  rewrite (includes_suffix (apiUrl s) "/auth/refresh"). apply orb_true_r.
Qed.

Lemma intercept_auth_endpoint {A} (fuel : nat) (req : HttpRequest)
      (next : HttpRequest -> M A) :
  AuthInterceptor.isAuthEndpoint (url req) = true ->
  AuthInterceptor.intercept (S fuel) req next = next req.
Proof. intros H. simpl. rewrite H. reflexivity. Qed.

Lemma intercept_other {A} (fuel : nat) (req : HttpRequest)
      (next : HttpRequest -> M A) :
  AuthInterceptor.isAuthEndpoint (url req) = false ->
  AuthInterceptor.intercept (S fuel) req next
  = Obs.catchError
      (Obs.switchMap (AuthInterceptor.addAuthHeader req) next)
      (fun error =>
         if AuthInterceptor.is401 error
         then AuthInterceptor.handle401Error
                (fun r => AuthInterceptor.intercept fuel r backend_auth) req next
         else Obs.throwError error).
Proof. intros H. simpl. rewrite H. reflexivity. Qed.

(** The refresh request of [AuthService] passes the interceptor untouched. *)
Lemma http_post_refresh (fuel : nat) (s : AuthServiceState) :
  AuthInterceptor.intercept (S fuel) (AuthService.refreshRequest s) backend_auth
  = backend_auth (AuthService.refreshRequest s).
Proof. apply intercept_auth_endpoint, refresh_url_is_auth_endpoint. Qed.

Lemma refreshToken_succeeds (fuel : nat) (w : World) (t1 : AuthTokens)
      (rrest : list (Reply AuthTokens)) :
  refreshTokenInProgress (auth w) = false ->
  refreshReplies w = Ok t1 :: rrest ->
  AuthService.refreshToken
    (fun r => AuthInterceptor.intercept (S fuel) r backend_auth) w
  = Some (Next t1,
          mkWorld (AuthService.onTokens t1 (auth w)) (apiReplies w) rrest
                  (sent w ++ [AuthService.refreshRequest (auth w)])).
Proof.
  intros Hidle Hreply. unfold AuthService.refreshToken. rewrite Hidle.
  unfold Obs.catchError, Obs.tap, Obs.switchMap.
  rewrite http_post_refresh. unfold backend_auth. simpl refreshReplies.
  rewrite Hreply. reflexivity.
Qed.

Lemma refreshToken_fails (fuel : nat) (w : World) (status : Z)
      (rrest : list (Reply AuthTokens)) :
  refreshTokenInProgress (auth w) = false ->
  refreshReplies w = Fail status :: rrest ->
  AuthService.refreshToken
    (fun r => AuthInterceptor.intercept (S fuel) r backend_auth) w
  = Some (Error (HttpErrorResponse (url (AuthService.refreshRequest (auth w)))
                                   status None),
          mkWorld (AuthService.onFailure (auth w)) (apiReplies w) rrest
                  (sent w ++ [AuthService.refreshRequest (auth w)])).
Proof.
  intros Hidle Hreply. unfold AuthService.refreshToken. rewrite Hidle.
  unfold Obs.catchError, Obs.tap, Obs.switchMap.
  rewrite http_post_refresh. unfold backend_auth. simpl refreshReplies.
  rewrite Hreply. reflexivity.
Qed.

Lemma addAuthHeader_stored (req : HttpRequest) (w : World) (t0 : AuthTokens) :
  storedTokens (auth w) = Some t0 ->
  AuthInterceptor.addAuthHeader req w
  = Some (Next (clone_set_header req "Authorization" (AuthInterceptor.bearer t0)), w).
Proof.
  intros H. unfold AuthInterceptor.addAuthHeader, Obs.map, Obs.switchMap,
    AuthService.getStoredTokens, AuthService.getStoredTokens_now.
  rewrite H. reflexivity.
Qed.

Lemma addAuthHeader_logged_out (req : HttpRequest) (w : World) :
  storedTokens (auth w) = None ->
  AuthInterceptor.addAuthHeader req w = Some (Error (JsError "No tokens found"), w).
Proof.
  intros H. unfold AuthInterceptor.addAuthHeader, Obs.map, Obs.switchMap,
    AuthService.getStoredTokens, AuthService.getStoredTokens_now.
  rewrite H. reflexivity.
Qed.

(** Two levels of the interceptor chain are always enough: the request of
    the caller, and the refresh request that passes untouched. *)
Lemma intercept_needs_two_levels {A} (fuel : nat) (req : HttpRequest)
      (next : HttpRequest -> M A) (w : World) :
  (forall r w', next r w' <> None) ->
  AuthInterceptor.intercept (S (S fuel)) req next w <> None.
Proof.
  intros Hnext.
  destruct (AuthInterceptor.isAuthEndpoint (url req)) eqn:Hurl.
  - rewrite (intercept_auth_endpoint _ _ _ Hurl). apply Hnext.
  - rewrite (intercept_other _ _ _ Hurl).
    unfold Obs.catchError, Obs.switchMap at 1.
    unfold AuthInterceptor.addAuthHeader, Obs.map, Obs.switchMap,
      AuthService.getStoredTokens, Obs.of_, Obs.throwError.
    unfold AuthService.getStoredTokens_now at 1.
    destruct (storedTokens (auth w)) as [t0|]; cbv beta iota.
    + destruct (next _ w) as [[[a|e|] w1]|] eqn:Hn; try discriminate.
      * destruct (AuthInterceptor.is401 e); [|discriminate].
        unfold AuthInterceptor.handle401Error, Obs.switchMap.
        unfold AuthService.refreshToken.
        destruct (refreshTokenInProgress (auth w1)).
        -- unfold AuthService.joinRefresh, AuthService.getStoredTokens.
           destruct (refreshTokenSubject (auth w1)); [|discriminate].
           destruct (AuthService.getStoredTokens_now (auth w1)); try discriminate.
           apply Hnext.
        -- unfold Obs.catchError, Obs.tap, Obs.switchMap. cbv beta.
           rewrite http_post_refresh. unfold backend_auth.
           destruct (refreshReplies _) as [|[t1|s] rr]; simpl; try discriminate.
           apply Hnext.
      * exfalso. exact (Hnext _ _ Hn).
    + simpl. discriminate.
Qed.

(** C10. A request to a login or refresh endpoint is given to the next
    handler as it is: the interceptor adds no header, and when the server
    answers it with 401 the error is returned with no refresh request sent
    and the service left untouched.  The refresh request of [AuthService] is
    such a request, so it reaches the server without a nested refresh. *)
Theorem C10_auth_endpoints_bypass
        (fuel : nat) (A : Type) (req : HttpRequest) (next : HttpRequest -> M A)
        (w : World) (rest : list (Reply HttpResponse)) :
  AuthInterceptor.isAuthEndpoint (url req) = true ->
  apiReplies w = Fail 401 :: rest ->
  AuthInterceptor.intercept (S fuel) req next w = next req w
  /\ AuthInterceptor.intercept (S fuel) req backend_api w
     = Some (Error (HttpErrorResponse (url req) 401 None),
             mkWorld (auth w) rest (refreshReplies w) (sent w ++ [req]))
  /\ AuthInterceptor.isAuthEndpoint (url (AuthService.refreshRequest (auth w))) = true
  /\ AuthInterceptor.intercept (S fuel) (AuthService.refreshRequest (auth w))
                               backend_auth w
     = backend_auth (AuthService.refreshRequest (auth w)) w.
Proof.
  intros Hurl Hreply. repeat split.
  - rewrite (intercept_auth_endpoint _ _ _ Hurl). reflexivity.
  - rewrite (intercept_auth_endpoint _ _ _ Hurl). unfold backend_api.
    rewrite Hreply. reflexivity.
  - apply refresh_url_is_auth_endpoint.
  - rewrite http_post_refresh. reflexivity.
Qed.

Lemma C10_auth_endpoints_bypass_witness :
  let login := mkRequest "POST" "https://api/auth/login" [] ∅ (JsonBody "{}") in
  let s := mkAuth "https://api" false None None in
  let w := mkWorld s [Fail 401] [] [] in
  AuthInterceptor.isAuthEndpoint (url login) = true
  /\ AuthInterceptor.intercept 1 login backend_api w
     = Some (Error (HttpErrorResponse "https://api/auth/login" 401 None),
             mkWorld s [] [] [login]).
Proof.
  intros login s w.
  assert (Hurl : AuthInterceptor.isAuthEndpoint (url login) = true) by reflexivity.
  split; [exact Hurl|].
  exact (proj1 (proj2 (C10_auth_endpoints_bypass 0 HttpResponse login backend_api w []
                         Hurl eq_refl))).
Defined.

Lemma clone_set_header_url (req : HttpRequest) (name value : string) :
  url (clone_set_header req name value) = url req.
Proof. reflexivity. Qed.

Lemma clone_set_header_get (req : HttpRequest) (name value : string) :
  HttpHeaders_get name (headers (clone_set_header req name value)) = Some value.
Proof. unfold HttpHeaders_get, clone_set_header, HttpHeaders_set. simpl. apply lookup_insert_eq. Qed.

Lemma not_refresh_url (req : HttpRequest) (s : AuthServiceState) :
  AuthInterceptor.isAuthEndpoint (url req) = false ->
  String.eqb (url req) (url (AuthService.refreshRequest s)) = false.
Proof.
  intros H. destruct (String.eqb_spec (url req) (url (AuthService.refreshRequest s)))
    as [Heq|]; [|reflexivity].
  rewrite Heq, refresh_url_is_auth_endpoint in H. discriminate.
Qed.

(** C3, as amended.  For a request that is not to a login or refresh
    endpoint, sent while no refresh is in progress, whose first attempt is
    answered with 401: one refresh request is sent.  If the refresh succeeds
    the request is sent once more with the new access token in its
    Authorization header and the outcome of that second attempt is the
    outcome of the call; a second 401 is returned as it is, with no further
    refresh and no further attempt.  If the refresh fails, its error is the
    outcome, the request is not sent again, and the tokens are removed. *)
Theorem C3_refresh_and_retry_once
        (fuel : nat) (req : HttpRequest) (w : World) (t0 t1 : AuthTokens)
        (second : Reply HttpResponse) (rest : list (Reply HttpResponse))
        (status : Z) (rrest : list (Reply AuthTokens)) :
  AuthInterceptor.isAuthEndpoint (url req) = false ->
  refreshTokenInProgress (auth w) = false ->
  storedTokens (auth w) = Some t0 ->
  apiReplies w = Fail 401 :: second :: rest ->
  let first := clone_set_header req "Authorization" (AuthInterceptor.bearer t0) in
  let again := clone_set_header req "Authorization" (AuthInterceptor.bearer t1) in
  let refresh := AuthService.refreshRequest (auth w) in
  (refreshReplies w = Ok t1 :: rrest ->
   AuthInterceptor.intercept (S (S fuel)) req backend_api w
   = Some (reply_result (url req) second,
           mkWorld (AuthService.onTokens t1 (auth w)) rest rrest
                   (sent w ++ [first; refresh; again])))
  /\ (refreshReplies w = Fail status :: rrest ->
      AuthInterceptor.intercept (S (S fuel)) req backend_api w
      = Some (Error (HttpErrorResponse (url refresh) status None),
              mkWorld (AuthService.onFailure (auth w)) (second :: rest) rrest
                      (sent w ++ [first; refresh])))
  /\ HttpHeaders_get "Authorization" (headers again) = Some (AuthInterceptor.bearer t1)
  /\ storedTokens (AuthService.onFailure (auth w)) = None
  /\ Spec.authError (auth w) (HttpErrorResponse (url req) 401 None)
     = Some Spec.unauthorized
  /\ Spec.authError (auth w) (HttpErrorResponse (url refresh) status None)
     = Some Spec.refreshFailed.
Proof.
  intros Hurl Hidle Hstored Hreplies first again refresh.
  assert (Hfirst :
    Obs.switchMap (AuthInterceptor.addAuthHeader req) backend_api w
    = Some (Error (HttpErrorResponse (url req) 401 None),
            mkWorld (auth w) (second :: rest) (refreshReplies w) (sent w ++ [first]))).
  { unfold Obs.switchMap. rewrite (addAuthHeader_stored _ _ _ Hstored).
    unfold backend_api. rewrite Hreplies. reflexivity. }
  split; [|split; [|repeat split]].
  - intros Hrefresh. rewrite (intercept_other _ _ _ Hurl).
    unfold Obs.catchError. rewrite Hfirst.
    change (AuthInterceptor.is401 (HttpErrorResponse (url req) 401 None)) with true.
    cbv iota. unfold AuthInterceptor.handle401Error, Obs.switchMap.
    rewrite (refreshToken_succeeds fuel
               (mkWorld (auth w) (second :: rest) (refreshReplies w) (sent w ++ [first]))
               t1 rrest Hidle Hrefresh).
    unfold backend_api. simpl apiReplies. simpl sent. simpl auth.
    simpl refreshReplies. rewrite <- !app_assoc. reflexivity.
  - intros Hrefresh. rewrite (intercept_other _ _ _ Hurl).
    unfold Obs.catchError. rewrite Hfirst.
    change (AuthInterceptor.is401 (HttpErrorResponse (url req) 401 None)) with true.
    cbv iota. unfold AuthInterceptor.handle401Error, Obs.switchMap.
    rewrite (refreshToken_fails fuel
               (mkWorld (auth w) (second :: rest) (refreshReplies w) (sent w ++ [first]))
               status rrest Hidle Hrefresh).
    simpl apiReplies. simpl sent. simpl auth. rewrite <- !app_assoc. reflexivity.
  - apply clone_set_header_get.
  - unfold Spec.authError. rewrite (not_refresh_url _ _ Hurl). reflexivity.
  - unfold Spec.authError. rewrite String.eqb_refl. reflexivity.
Qed.

Lemma C3_refresh_and_retry_once_witness :
  let req := mkRequest "GET" "https://api/users/profile" [] ∅ NoBody in
  let t0 := mkTokens "a0" "r0" 900 in
  let t1 := mkTokens "a1" "r1" 900 in
  let s := mkAuth "https://api" false None (Some t0) in
  let w := mkWorld s [Fail 401; Ok (mkResponse 200 "profile")] [Ok t1] [] in
  (AuthInterceptor.isAuthEndpoint (url req) = false
   /\ refreshTokenInProgress (auth w) = false
   /\ storedTokens (auth w) = Some t0
   /\ apiReplies w = [Fail 401; Ok (mkResponse 200 "profile")]
   /\ refreshReplies w = [Ok t1])
  /\ AuthInterceptor.intercept 2 req backend_api w
     = Some (Next (mkResponse 200 "profile"),
             mkWorld (mkAuth "https://api" false (Some "a1") (Some t1)) [] []
               [clone_set_header req "Authorization" "Bearer a0";
                mkRequest "POST" "https://api/auth/refresh" [] ∅ (RefreshBody (Some "r0"));
                clone_set_header req "Authorization" "Bearer a1"]).
Proof.
  intros req t0 t1 s w.
  assert (Hurl : AuthInterceptor.isAuthEndpoint (url req) = false) by reflexivity.
  split; [repeat split; reflexivity|].
  exact (proj1 (C3_refresh_and_retry_once 0 req w t0 t1
                  (Ok (mkResponse 200 "profile")) [] 0 []
                  Hurl eq_refl eq_refl eq_refl) eq_refl).
Defined.

(** C3 as the specification states it fails: a login request answered with
    401 is not followed by a refresh or by a second attempt, although tokens
    are stored and a refresh would succeed. *)
Lemma C3_counterexample :
  let login := mkRequest "POST" "https://api/auth/login" [] ∅ (JsonBody "{}") in
  let t0 := mkTokens "a0" "r0" 900 in
  let t1 := mkTokens "a1" "r1" 900 in
  let s := mkAuth "https://api" false None (Some t0) in
  let w := mkWorld s [Fail 401; Ok (mkResponse 200 "ok")] [Ok t1] [] in
  AuthInterceptor.intercept 2 login backend_api w
  = Some (Error (HttpErrorResponse "https://api/auth/login" 401 None),
          mkWorld s [Ok (mkResponse 200 "ok")] [Ok t1] [login]).
Proof. reflexivity. Qed.

Example intercept_second_401 :
  let req := mkRequest "GET" "https://api/users/profile" [] ∅ NoBody in
  let t0 := mkTokens "a0" "r0" 900 in
  let t1 := mkTokens "a1" "r1" 900 in
  let w := mkWorld (mkAuth "https://api" false None (Some t0))
                   [Fail 401; Fail 401; Ok (mkResponse 200 "late")]
                   [Ok t1; Ok t1] [] in
  match AuthInterceptor.intercept 2 req backend_api w with
  | Some (r, w') =>
      r = Error (HttpErrorResponse "https://api/users/profile" 401 None)
      /\ length (sent w') = 3%nat
      /\ apiReplies w' = [Ok (mkResponse 200 "late")]
      /\ refreshReplies w' = [Ok t1]
  | None => False
  end.
Proof. vm_compute. repeat split; reflexivity. Qed.

Example intercept_without_tokens :
  let req := mkRequest "GET" "https://api/users/profile" [] ∅ NoBody in
  let w := mkWorld (mkAuth "https://api" false None None) [Fail 401] [] [] in
  AuthInterceptor.intercept 2 req backend_api w
  = Some (Error (JsError "No tokens found"), w).
Proof. reflexivity. Qed.

(** ** AuthService.refreshToken with overlapping callers *)

Section Race.

Import RefreshRace.

(** A caller that arrives while a refresh is in progress sends nothing. *)
Lemma calls_in_progress (c : nat) (s : Sched) :
  refreshTokenInProgress (auth (world s)) = true ->
  world (calls c s) = world s /\ inflight (calls c s) = inflight s.
Proof.
  intros Hflag. unfold calls, AuthService.refreshToken. rewrite Hflag.
  unfold AuthService.joinRefresh, AuthService.getStoredTokens.
  destruct (refreshTokenSubject (auth (world s))); [|auto].
  destruct (AuthService.getStoredTokens_now (auth (world s))); auto.
Qed.

(** A caller that arrives while no refresh is in progress sends the refresh
    request and sets the flag. *)
Lemma calls_idle (c : nat) (s : Sched) :
  refreshTokenInProgress (auth (world s)) = false ->
  calls c s
  = mkSched (mkWorld (AuthService.set_inProgress true (auth (world s)))
                     (apiReplies (world s)) (refreshReplies (world s))
                     (sent (world s) ++ [AuthService.refreshRequest (auth (world s))]))
            (waiting s) (inflight s ++ [c]) (delivered s).
Proof.
  intros Hflag. unfold calls, AuthService.refreshToken. rewrite Hflag.
  reflexivity.
Qed.

(** A caller that joins while the subject holds [null] waits. *)
Lemma calls_waits (c : nat) (s : Sched) :
  refreshTokenInProgress (auth (world s)) = true ->
  refreshTokenSubject (auth (world s)) = None ->
  calls c s = mkSched (world s) (waiting s ++ [c]) (inflight s) (delivered s).
Proof.
  intros Hflag Hnull. unfold calls, AuthService.refreshToken. rewrite Hflag.
  unfold AuthService.joinRefresh. rewrite Hnull. reflexivity.
Qed.

Lemma step_single_flight (s : Sched) (e : Event) :
  single_flight s -> single_flight (step s e).
Proof.
  unfold single_flight. intros H. destruct e as [c|tokens|status]; simpl.
  - destruct (refreshTokenInProgress (auth (world s))) eqn:Hflag.
    + destruct (calls_in_progress c s Hflag) as [-> ->]. rewrite Hflag. exact H.
    + rewrite (calls_idle c s Hflag). simpl. rewrite H. reflexivity.
  - unfold responds. destruct (inflight s) as [|i rest] eqn:Hin.
    + rewrite Hin. exact H.
    + simpl. destruct (refreshTokenInProgress (auth (world s))).
      * simpl in H. destruct rest; [reflexivity | discriminate].
      * discriminate.
  - unfold respondsError. destruct (inflight s) as [|i rest] eqn:Hin.
    + rewrite Hin. exact H.
    + simpl. destruct (refreshTokenInProgress (auth (world s))).
      * simpl in H. destruct rest; [reflexivity | discriminate].
      * discriminate.
Qed.

Lemma run_from_single_flight (events : list Event) :
  forall s, single_flight s -> single_flight (fold_left step events s).
Proof.
  induction events as [|e events IH]; intros s Hs; simpl; [exact Hs|].
  apply IH, step_single_flight, Hs.
Qed.

(** Whatever the callers and the server do, at most one refresh request is
    on the wire. *)
Lemma at_most_one_refresh_in_flight (s0 : AuthServiceState) (events : list Event) :
  refreshTokenInProgress s0 = false ->
  (length (inflight (run s0 events)) <= 1)%nat.
Proof.
  intros Hidle.
  assert (H : single_flight (run s0 events)).
  { apply run_from_single_flight. unfold single_flight, start. simpl.
    rewrite Hidle. reflexivity. }
  unfold single_flight in H.
  destruct (refreshTokenInProgress (auth (world (run s0 events)))); rewrite H; simpl; lia.
Qed.

Lemma joiners_wait (cs : list nat) :
  forall s,
    refreshTokenInProgress (auth (world s)) = true ->
    refreshTokenSubject (auth (world s)) = None ->
    fold_left step (List.map Calls cs) s
    = mkSched (world s) (waiting s ++ cs) (inflight s) (delivered s).
Proof.
  induction cs as [|c cs IH]; intros s Hflag Hnull; simpl.
  - rewrite app_nil_r. destruct s; reflexivity.
  - rewrite (calls_waits c s Hflag Hnull).
    rewrite IH; [|exact Hflag|exact Hnull]. simpl.
    rewrite <- app_assoc. reflexivity.
Qed.

(** The first refresh of a service: one caller starts it, any number of
    callers join it, and when it succeeds every one of them receives the
    new tokens; one refresh request has been sent. *)
Lemma first_refresh_shared (s0 : AuthServiceState) (c0 : nat) (cs : list nat)
      (tokens : AuthTokens) :
  refreshTokenInProgress s0 = false ->
  refreshTokenSubject s0 = None ->
  let s := run s0 (Calls c0 :: List.map Calls cs ++ [Responds tokens]) in
  delivered s = List.map (fun c => (c, Next tokens)) (cs ++ [c0])
  /\ sent (world s) = [AuthService.refreshRequest s0]
  /\ waiting s = [] /\ inflight s = [].
Proof.
  intros Hidle Hnull. unfold run. simpl fold_left.
  rewrite fold_left_app.
  rewrite (calls_idle c0 (start s0) Hidle). simpl.
  rewrite joiners_wait; [|reflexivity|exact Hnull]. simpl.
  unfold responds, subject_next. simpl.
  rewrite List.map_app. simpl. auto.
Qed.

End Race.

Section RaceDefects.

Import RefreshRace.

(** A caller that joins while the subject still holds the access token of
    an earlier refresh receives the stored tokens at once. *)
Lemma calls_replays_old_token (c : nat) (s : Sched) (old : string)
      (stored : AuthTokens) :
  refreshTokenInProgress (auth (world s)) = true ->
  refreshTokenSubject (auth (world s)) = Some old ->
  storedTokens (auth (world s)) = Some stored ->
  calls c s
  = mkSched (world s) (waiting s) (inflight s) (delivered s ++ [(c, Next stored)]).
Proof.
  intros Hflag Hold Hstored. unfold calls, AuthService.refreshToken.
  rewrite Hflag. unfold AuthService.joinRefresh. rewrite Hold.
  unfold AuthService.getStoredTokens, AuthService.getStoredTokens_now.
  rewrite Hstored. reflexivity.
Qed.

(** When the first refresh of a service fails, the caller that started it
    receives the error; the callers that joined receive nothing and stay
    subscribed.  The tokens are removed and no further request is sent. *)
Lemma failed_refresh_reaches_initiator_only
      (s0 : AuthServiceState) (c0 : nat) (cs : list nat) (status : Z) :
  refreshTokenInProgress s0 = false ->
  refreshTokenSubject s0 = None ->
  let s := run s0 (Calls c0 :: List.map Calls cs ++ [RespondsError status]) in
  delivered s
  = [(c0, Error (HttpErrorResponse (url (AuthService.refreshRequest s0)) status None))]
  /\ waiting s = cs
  /\ storedTokens (auth (world s)) = None
  /\ refreshTokenInProgress (auth (world s)) = false
  /\ sent (world s) = [AuthService.refreshRequest s0].
Proof.
  intros Hidle Hnull. unfold run. simpl fold_left.
  rewrite fold_left_app.
  rewrite (calls_idle c0 (start s0) Hidle). simpl.
  rewrite joiners_wait; [|reflexivity|exact Hnull]. simpl.
  unfold respondsError, subject_next. simpl. auto.
Qed.

End RaceDefects.

(** C1 (the code departs from it).  The service has refreshed once, so its
    subject holds the access token of that refresh.  Caller 2 then starts a
    second refresh and caller 3 calls [refreshToken] while it is in progress:
    no second request is sent, but caller 3 receives the tokens of the first
    refresh at once, before the refresh in progress has been answered, and
    caller 2 later receives the new tokens. *)
Theorem C1_joiner_receives_previous_tokens :
  let t0 := mkTokens "a0" "r0" 900 in
  let t1 := mkTokens "a1" "r1" 900 in
  let t2 := mkTokens "a2" "r2" 900 in
  let s0 := mkAuth "https://api" false None (Some t0) in
  let before := RefreshRace.run s0
                  [RefreshRace.Calls 1; RefreshRace.Responds t1;
                   RefreshRace.Calls 2; RefreshRace.Calls 3] in
  let after := RefreshRace.step before (RefreshRace.Responds t2) in
  RefreshRace.inflight before = [2%nat]
  /\ length (sent (RefreshRace.world before)) = 2%nat
  /\ RefreshRace.received 3 before = [Next t1]
  /\ RefreshRace.received 2 after = [Next t2]
  /\ RefreshRace.received 3 after = [Next t1]
  /\ RefreshRace.waiting after = [].
Proof. vm_compute. repeat split; reflexivity. Qed.

(** C2 (the code departs from it).  Caller 1 starts the first refresh of the
    service and caller 2 joins it; the refresh request fails with status
    400.  Caller 1 receives the error, the tokens are removed and no other
    request is sent, but caller 2 receives nothing and stays subscribed. *)
Theorem C2_waiter_never_told_of_failure :
  let t0 := mkTokens "a0" "r0" 900 in
  let s0 := mkAuth "https://api" false None (Some t0) in
  let s := RefreshRace.run s0
             [RefreshRace.Calls 1; RefreshRace.Calls 2;
              RefreshRace.RespondsError 400] in
  RefreshRace.received 1 s
  = [Error (HttpErrorResponse "https://api/auth/refresh" 400 None)]
  /\ RefreshRace.received 2 s = []
  /\ RefreshRace.waiting s = [2%nat]
  /\ RefreshRace.inflight s = []
  /\ storedTokens (auth (RefreshRace.world s)) = None
  /\ refreshTokenInProgress (auth (RefreshRace.world s)) = false
  /\ length (sent (RefreshRace.world s)) = 1%nat.
Proof. vm_compute. repeat split; reflexivity. Qed.

(** ** TokenRefreshService: the same sharing through a plain Subject *)

Section Sibling.

Import TokenRefreshService.

Lemma sibling_joiners (cs : list nat) :
  forall (observers : list nat) (n : nat) (d : list (nat * Result AuthTokens)),
    fold_left step (List.map Calls cs) (mkState true (Open observers) n d)
    = mkState true (Open (observers ++ cs)) n d.
Proof.
  induction cs as [|c cs IH]; intros observers n d; simpl.
  - rewrite app_nil_r. reflexivity.
  - change (refreshToken c (mkState true (Open observers) n d))
      with (mkState true (Open (observers ++ [c])) n d).
    rewrite IH, <- app_assoc. reflexivity.
Qed.

(** In [TokenRefreshService] a failed refresh is delivered to the caller
    that started it and to every caller that joined, and one call to
    [AuthService] has been made. *)
Lemma sibling_failure_shared (c0 : nat) (cs : list nat) (error : Err) :
  let s := run (Calls c0 :: List.map Calls cs ++ [RespondsError error]) in
  delivered s = List.map (fun c => (c, Error error)) (c0 :: cs)
  /\ refreshCalls s = 1%nat
  /\ refreshInProgress s = false.
Proof.
  unfold run. simpl fold_left. rewrite fold_left_app.
  change (refreshToken c0 start) with (mkState true (Open [c0]) 1 []).
  rewrite sibling_joiners. simpl. auto.
Qed.

Lemma sibling_success_shared (c0 : nat) (cs : list nat) (tokens : AuthTokens) :
  let s := run (Calls c0 :: List.map Calls cs ++ [Responds tokens]) in
  delivered s = List.map (fun c => (c, Next tokens)) (c0 :: cs)
  /\ refreshCalls s = 1%nat
  /\ refreshInProgress s = false.
Proof.
  unfold run. simpl fold_left. rewrite fold_left_app.
  change (refreshToken c0 start) with (mkState true (Open [c0]) 1 []).
  rewrite sibling_joiners. simpl. auto.
Qed.

End Sibling.

(** * Further properties of the code *)

(** ** BatchConfigService.calculateOptimalBatchSize *)

Lemma ceil_div_bounds (a b : Z) :
  0 < b -> b * (BatchConfigService.ceil_div a b - 1) < a <= b * BatchConfigService.ceil_div a b.
Proof.
  intros Hb. unfold BatchConfigService.ceil_div.
  pose proof (Z.div_mod (a + b - 1) b ltac:(lia)) as Hdm.
  pose proof (Z.mod_pos_bound (a + b - 1) b Hb) as Hm.
  nia.
Qed.

Lemma ceil_div_unique (a b q : Z) :
  0 < b -> b * (q - 1) < a <= b * q -> BatchConfigService.ceil_div a b = q.
Proof.
  intros Hb Hq. pose proof (ceil_div_bounds a b Hb) as H. nia.
Qed.

(** X1. For a non-empty array the batch size is a number between 1 and 20
    (the limit of 50 is never reached), and cutting the items into batches
    of that size takes exactly as many batches as cutting them into batches
    of 20.  For an empty array the result is NaN. *)
Theorem X1_optimal_batch_size (A : Type) (items : list A) :
  items <> [] ->
  let n := Z.of_nat (length items) in
  (exists size,
      BatchConfigService.calculateOptimalBatchSize items = Some size
      /\ 1 <= size <= 20
      /\ BatchConfigService.ceil_div n size = BatchConfigService.ceil_div n 20)
  /\ BatchConfigService.calculateOptimalBatchSize (@nil A) = None.
Proof.
  intros Hne n. split; [|reflexivity].
  assert (Hn : 1 <= n) by (destruct items; [congruence | subst n; simpl length; lia]).
  unfold BatchConfigService.calculateOptimalBatchSize.
  fold n. unfold BatchConfigService.OPTIMAL_BATCH_SIZE, BatchConfigService.MAX_BATCH_SIZE.
  set (m := BatchConfigService.ceil_div n 20).
  pose proof (ceil_div_bounds n 20 ltac:(lia)) as Hm. fold m in Hm.
  assert (Hm1 : 1 <= m) by nia.
  destruct (Z.eqb_spec m 0) as [|_]; [lia|].
  set (s := BatchConfigService.ceil_div n m).
  pose proof (ceil_div_bounds n m ltac:(lia)) as Hs. fold s in Hs.
  assert (Hs1 : 1 <= s <= 20) by nia.
  exists (Z.min 50 s). rewrite Z.min_r by lia.
  split; [reflexivity|]. split; [exact Hs1|].
  apply ceil_div_unique; [lia|]. nia.
Qed.

Lemma X1_optimal_batch_size_witness :
  List.repeat 0 45 <> []
  /\ (exists size,
        BatchConfigService.calculateOptimalBatchSize (List.repeat 0 45) = Some size
        /\ 1 <= size <= 20
        /\ BatchConfigService.ceil_div 45 size = BatchConfigService.ceil_div 45 20)
  /\ BatchConfigService.calculateOptimalBatchSize (@nil Z) = None.
Proof.
  split; [discriminate|].
  apply (X1_optimal_batch_size Z (List.repeat 0 45)). discriminate.
Defined.

Example calculateOptimalBatchSize_45 :
  BatchConfigService.calculateOptimalBatchSize (List.repeat 0 45) = Some 15.
Proof. reflexivity. Qed.

(** ** SmartBatchService.batchUpdateWithRetry *)

Section SmartBatch.

Import SmartBatchService.

Context {A B : Type}.
Variable processBatch : list A -> Reply (list B).

Lemma batchUpdate_empty_rejected :
  processBatch [] = Fail 413 ->
  forall fuel, batchUpdateWithRetry processBatch fuel [] = None.
Proof.
  intros Hnil. induction fuel as [|fuel IH]; [reflexivity|].
  cbn [batchUpdateWithRetry]. rewrite Hnil.
  change (413 =? 413) with true. cbv iota.
  change (length (@nil A) / 2)%nat with 0%nat.
  rewrite take_0, drop_0, IH. reflexivity.
Qed.

Lemma batchUpdate_short_rejected (items : list A) :
  (length items <= 1)%nat ->
  processBatch items = Fail 413 ->
  (processBatch [] = Fail 413 \/ exists r, processBatch [] = Ok r) ->
  forall fuel, batchUpdateWithRetry processBatch fuel items = None.
Proof.
  intros Hlen Hitems Hnil. induction fuel as [|fuel IH]; [reflexivity|].
  cbn [batchUpdateWithRetry]. rewrite Hitems.
  change (413 =? 413) with true. cbv iota.
  replace (length items / 2)%nat with 0%nat
    by (destruct items as [|x [|y l]]; simpl in *; [reflexivity|reflexivity|lia]).
  rewrite take_0, drop_0, IH.
  destruct (batchUpdateWithRetry processBatch fuel []) as [[r|e]|] eqn:Hleft;
    [reflexivity| |reflexivity].
  exfalso. destruct Hnil as [Hnil|[r Hnil]].
  - rewrite (batchUpdate_empty_rejected Hnil) in Hleft. discriminate.
  - destruct fuel; simpl in Hleft; [discriminate|].
    rewrite Hnil in Hleft. discriminate.
Qed.

Variable f : A -> B.
Variable limit : nat.

Hypothesis limit_positive : (1 <= limit)%nat.
Hypothesis server :
  forall items,
    processBatch items
    = if (length items <=? limit)%nat then Ok (List.map f items) else Fail 413.

Lemma batchUpdate_completes (fuel : nat) :
  forall items,
    (length items < fuel)%nat ->
    batchUpdateWithRetry processBatch fuel items = Some (Done (List.map f items)).
Proof.
  induction fuel as [|fuel IH]; intros items Hlen; [lia|].
  cbn [batchUpdateWithRetry]. rewrite server.
  destruct (Nat.leb_spec (length items) limit) as [Hle|Hgt]; [reflexivity|].
  change (413 =? 413) with true. cbv iota.
  assert (Hmid : (1 <= length items / 2 < length items)%nat).
  { split.
    - apply Nat.div_le_lower_bound; lia.
    - apply Nat.div_lt; lia. }
  rewrite (IH (take (length items / 2) items)) by (rewrite length_take; lia).
  rewrite (IH (drop (length items / 2) items)) by (rewrite length_drop; lia).
  simpl. rewrite <- List.map_app, take_drop. reflexivity.
Qed.

End SmartBatch.

(** X2. When the server accepts every batch of at most [limit] items
    ([limit >= 1]) and answers 413 to larger ones, [batchUpdateWithRetry]
    ends with the results of all items, in the order of the items, however
    long the array is. *)
Theorem X2_batch_split_returns_all_in_order
        (A B : Type) (processBatch : list A -> Reply (list B)) (f : A -> B)
        (limit : nat) (items : list A) :
  (1 <= limit)%nat ->
  (forall batch,
      processBatch batch
      = if (length batch <=? limit)%nat then Ok (List.map f batch) else Fail 413) ->
  SmartBatchService.batchUpdateWithRetry processBatch (S (length items)) items
  = Some (SmartBatchService.Done (List.map f items)).
Proof.
  intros Hlimit Hserver.
  apply (batchUpdate_completes processBatch f limit Hlimit Hserver). lia.
Qed.

Lemma X2_batch_split_returns_all_in_order_witness :
  let processBatch := fun batch : list Z =>
    if (length batch <=? 2)%nat then Ok (List.map Z.succ batch) else Fail 413 in
  (1 <= 2)%nat
  /\ SmartBatchService.batchUpdateWithRetry processBatch 6 [10; 20; 30; 40; 50]
     = Some (SmartBatchService.Done [11; 21; 31; 41; 51]).
Proof.
  intros processBatch. split; [lia|].
  apply (X2_batch_split_returns_all_in_order Z Z processBatch Z.succ 2
           [10; 20; 30; 40; 50]); [lia | reflexivity].
Defined.

(** X3. When the server answers 413 to a batch of one item (and does not
    fail on the empty batch with another status), [batchUpdateWithRetry] of
    that item never ends: the item is split into an empty batch and itself,
    again and again. *)
Theorem X3_rejected_single_item_never_ends
        (A B : Type) (processBatch : list A -> Reply (list B)) (x : A) (fuel : nat) :
  processBatch [x] = Fail 413 ->
  (processBatch [] = Fail 413 \/ exists r, processBatch [] = Ok r) ->
  SmartBatchService.batchUpdateWithRetry processBatch fuel [x] = None.
Proof.
  intros Hx Hnil.
  apply batchUpdate_short_rejected; [simpl; lia | exact Hx | exact Hnil].
Qed.

Lemma X3_rejected_single_item_never_ends_witness :
  let processBatch := fun batch : list Z =>
    match batch with
    | [] => Ok ([] : list Z)
    | _ => Fail 413
    end in
  processBatch [7] = Fail 413
  /\ SmartBatchService.batchUpdateWithRetry processBatch 1000 [7] = None.
Proof.
  intros processBatch. split; [reflexivity|].
  apply (X3_rejected_single_item_never_ends Z Z processBatch 7 1000);
    [reflexivity | right; exists []; reflexivity].
Defined.

(** ** BatchingService *)

Lemma window_batch_length {A} (w b : list A) :
  BatchingService.window_batch w = Some b ->
  (1 <= length b <= 10)%nat /\ b = take 10 w.
Proof.
  destruct w as [|x w]; simpl; [discriminate|].
  intros [= <-]. split; [|reflexivity].
  pose proof (length_take w 9) as Ht. simpl. lia.
Qed.

Lemma batches_length {A} (windows : list (list A)) :
  (length (concat (BatchingService.batches windows)) <= length (concat windows))%nat
  /\ (length (concat (BatchingService.batches windows)) = length (concat windows) ->
      Forall (fun w => (length w <= 10)%nat) windows).
Proof.
  induction windows as [|w ws [IHle IHeq]]; [split; [simpl; lia | constructor]|].
  unfold BatchingService.batches in *. simpl omap.
  destruct w as [|x w].
  - simpl. split; [exact IHle|]. intros H. constructor; [simpl; lia | auto].
  - cbn [BatchingService.window_batch concat].
    rewrite !length_app, length_take. unfold BatchingService.batchSize.
    change (list_omap (list A) (list A) BatchingService.window_batch ws)
      with (omap BatchingService.window_batch ws).
    split; [lia|]. intros H. constructor; [lia | apply IHeq; lia].
Qed.

Lemma batches_small {A} (windows : list (list A)) :
  Forall (fun w => (length w <= 10)%nat) windows ->
  concat (BatchingService.batches windows) = concat windows.
Proof.
  induction 1 as [|w ws Hw _ IH]; [reflexivity|].
  unfold BatchingService.batches in *. simpl omap.
  destruct w as [|x w]; [exact IH|].
  cbn [BatchingService.window_batch concat].
  change (list_omap (list A) (list A) BatchingService.window_batch ws)
    with (omap BatchingService.window_batch ws).
  rewrite take_ge by (unfold BatchingService.batchSize; lia).
  rewrite IH. reflexivity.
Qed.

(** X4. Every batch that reaches [processBatch] holds between 1 and 10
    items, the first ones of its window; the items that arrived are all
    passed on exactly when no window holds more than 10 of them: the
    eleventh and later items of a window are dropped. *)
Theorem X4_batching_drops_beyond_batch_size (A : Type) (windows : list (list A)) :
  Forall (fun b => (1 <= length b <= 10)%nat) (BatchingService.batches windows)
  /\ (concat (BatchingService.batches windows) = concat windows
      <-> Forall (fun w => (length w <= 10)%nat) windows).
Proof.
  split.
  - unfold BatchingService.batches. induction windows as [|w ws IH]; simpl; [constructor|].
    destruct (BatchingService.window_batch w) as [b|] eqn:Hb; [|exact IH].
    constructor; [apply (window_batch_length w b Hb) | exact IH].
  - split.
    + intros H. apply batches_length. rewrite H. reflexivity.
    + apply batches_small.
Qed.

Example batching_truncates :
  BatchingService.batches [[1; 2]; []; [1; 2; 3; 4; 5; 6; 7; 8; 9; 10; 11; 12]]
  = [[1; 2]; [1; 2; 3; 4; 5; 6; 7; 8; 9; 10]].
Proof. reflexivity. Qed.

(** ** RequestQueueService: hand-over of slots, failures, batchDownloadFiles *)

Section GateMore.

Import RequestQueueService.

Variable concurrent : nat.

Lemma remove_first_active (r : nat) (l : list nat) :
  existsb (fun x => (x =? r)%nat) l = true ->
  S (length (remove_first r l)) = length l.
Proof.
  induction l as [|x l IH]; simpl; [discriminate|].
  destruct (x =? r)%nat; simpl; [reflexivity|]. intros H. rewrite IH; auto.
Qed.

Lemma drain_total (waiting : list nat) :
  forall q,
    (length (active (drain concurrent waiting q))
     + length (buffer (drain concurrent waiting q))
     = length (active q) + length waiting)%nat
    /\ arrived (drain concurrent waiting q) = arrived q.
Proof.
  induction waiting as [|r rest IH]; intros q; simpl; [auto|].
  destruct (length (active q) <? concurrent)%nat; simpl; [|auto].
  destruct (IH (doInnerSub (mkQueue (active q) rest (started q) (arrived q) (closed q)) r))
    as [Hsum Harr].
  rewrite Hsum, Harr. simpl. rewrite length_app. simpl. split; [lia | reflexivity].
Qed.

Lemma innerComplete_step (q : Queue) (r : nat) :
  gate_inv concurrent q -> closed q = false -> is_active q r = true ->
  let q' := innerComplete concurrent q r in
  gate_inv concurrent q' /\ closed q' = false /\ arrived q' = arrived q
  /\ (S (length (active q') + length (buffer q'))
      = length (active q) + length (buffer q))%nat.
Proof.
  intros Hinv Hopen Hact. pose proof Hinv as (Hlen & Harr & _).
  unfold innerComplete. rewrite Hopen, Hact. simpl orb. cbv iota.
  pose proof (remove_first_active r (active q) Hact) as Hrem.
  set (q0 := mkQueue (remove_first r (active q)) (buffer q) (started q) (arrived q) false).
  destruct (drain_inv concurrent (buffer q) q0) as [Hinv' Hclosed]; [simpl; lia | exact Harr |].
  destruct (drain_total (buffer q) q0) as [Hsum Harr'].
  simpl in *. split; [exact Hinv'|]. split; [exact Hclosed|].
  split; [exact Harr'|]. lia.
Qed.

Lemma completes_in_turn_run (rs : list nat) :
  forall q,
    gate_inv concurrent q -> closed q = false ->
    completes_in_turn concurrent q rs ->
    let q' := fold_left (step concurrent) (List.map Completes rs) q in
    gate_inv concurrent q' /\ arrived q' = arrived q
    /\ (length rs + (length (active q') + length (buffer q'))
        = length (active q) + length (buffer q))%nat.
Proof.
  induction rs as [|r rs IH]; intros q Hinv Hopen Hok; simpl.
  - auto.
  - destruct Hok as [Hact Hok].
    destruct (innerComplete_step q r Hinv Hopen Hact) as (Hinv1 & Hopen1 & Harr1 & Hsum1).
    destruct (IH _ Hinv1 Hopen1 Hok) as (Hinv2 & Harr2 & Hsum2).
    simpl in *. split; [exact Hinv2|]. split; [congruence | lia].
Qed.

Lemma subscribe_all (ids : list nat) :
  forall pre,
    fold_left (step concurrent) (List.map Subscribes ids)
      (mkQueue (take concurrent pre) (drop concurrent pre) (take concurrent pre) pre false)
    = mkQueue (take concurrent (pre ++ ids)) (drop concurrent (pre ++ ids))
              (take concurrent (pre ++ ids)) (pre ++ ids) false.
Proof.
  induction ids as [|r ids IH]; intros pre; simpl.
  - rewrite app_nil_r. reflexivity.
  - replace (pre ++ r :: ids) with ((pre ++ [r]) ++ ids) by (rewrite <- app_assoc; reflexivity).
    rewrite <- IH. f_equal.
    unfold outerNext. simpl. rewrite length_take.
    rewrite take_app, drop_app.
    destruct (Nat.ltb_spec (concurrent `min` length pre) concurrent) as [Hlt|Hge].
    + assert (Hpre : (length pre < concurrent)%nat) by lia.
      unfold doInnerSub. simpl.
      rewrite !take_ge, !drop_ge by (simpl; lia).
      reflexivity.
    + assert (Hpre : (concurrent <= length pre)%nat) by lia.
      replace (concurrent - length pre)%nat with 0%nat by lia.
      rewrite take_0, drop_0, app_nil_r. reflexivity.
Qed.

Lemma batchDownloadFiles_run (fileIds : list string) :
  run concurrent (batchDownloadFiles fileIds)
  = mkQueue (take concurrent (seq 0 (length fileIds)))
            (drop concurrent (seq 0 (length fileIds)))
            (take concurrent (seq 0 (length fileIds)))
            (seq 0 (length fileIds)) false.
Proof.
  unfold run, batchDownloadFiles, empty.
  pose proof (subscribe_all (seq 0 (length fileIds)) []) as H.
  rewrite take_nil, drop_nil in H. exact H.
Qed.

End GateMore.

(** X5. When a running request completes while the gate is full and
    requests are waiting, the request that has waited longest is started at
    once, in the same step, and the others keep their order. *)
Theorem X5_slot_goes_to_oldest_waiter
        (concurrent : nat) (q : RequestQueueService.Queue) (r b : nat) (bs : list nat) :
  RequestQueueService.closed q = false ->
  RequestQueueService.is_active q r = true ->
  length (RequestQueueService.active q) = concurrent ->
  RequestQueueService.buffer q = b :: bs ->
  RequestQueueService.innerComplete concurrent q r
  = RequestQueueService.mkQueue
      (RequestQueueService.remove_first r (RequestQueueService.active q) ++ [b])
      bs
      (RequestQueueService.started q ++ [b])
      (RequestQueueService.arrived q)
      false.
Proof.
  intros Hopen Hact Hfull Hbuf.
  unfold RequestQueueService.innerComplete. rewrite Hopen, Hact, Hbuf. simpl orb. cbv iota.
  pose proof (remove_first_active r _ Hact) as Hrem.
  cbn [RequestQueueService.drain RequestQueueService.active].
  destruct (Nat.ltb_spec (length (RequestQueueService.remove_first r (RequestQueueService.active q)))
                         concurrent) as [_|Hge]; [|lia].
  unfold RequestQueueService.doInnerSub. simpl.
  assert (Hnow : length (RequestQueueService.remove_first r (RequestQueueService.active q) ++ [b])
                 = concurrent) by (rewrite length_app; simpl; lia).
  destruct bs as [|b' bs']; simpl; [reflexivity|].
  rewrite Hnow, Nat.ltb_irrefl. reflexivity.
Qed.

Lemma X5_slot_goes_to_oldest_waiter_witness :
  let q := RequestQueueService.run 2
             [RequestQueueService.Subscribes 1; RequestQueueService.Subscribes 2;
              RequestQueueService.Subscribes 3; RequestQueueService.Subscribes 4]%nat in
  RequestQueueService.innerComplete 2 q 1
  = RequestQueueService.mkQueue [2; 3]%nat [4%nat] [1; 2; 3]%nat [1; 2; 3; 4]%nat false.
Proof.
  intros q.
  exact (X5_slot_goes_to_oldest_waiter 2 q 1 3 [4%nat] eq_refl eq_refl eq_refl eq_refl).
Defined.

(** X6. When a running request fails, the queue stops for good: whatever
    is subscribed, completes or fails afterwards, no request is started any
    more, none is running, and the requests that were waiting stay where
    they were. *)
Theorem X6_failed_request_stops_queue
        (concurrent : nat) (q : RequestQueueService.Queue) (r : nat)
        (events : list RequestQueueService.Event) :
  RequestQueueService.closed q = false ->
  RequestQueueService.is_active q r = true ->
  fold_left (RequestQueueService.step concurrent) events
            (RequestQueueService.innerError q r)
  = RequestQueueService.mkQueue [] (RequestQueueService.buffer q)
      (RequestQueueService.started q) (RequestQueueService.arrived q) true.
Proof.
  intros Hopen Hact. unfold RequestQueueService.innerError.
  rewrite Hopen, Hact. simpl orb. cbv iota.
  induction events as [|e events IH]; [reflexivity|].
  simpl fold_left. destruct e; exact IH.
Qed.

Lemma X6_failed_request_stops_queue_witness :
  let q := RequestQueueService.run 2
             [RequestQueueService.Subscribes 1; RequestQueueService.Subscribes 2;
              RequestQueueService.Subscribes 3]%nat in
  fold_left (RequestQueueService.step 2)
            [RequestQueueService.Completes 2; RequestQueueService.Subscribes 4]%nat
            (RequestQueueService.innerError q 1)
  = RequestQueueService.mkQueue [] [3%nat] [1; 2]%nat [1; 2; 3]%nat true.
Proof.
  intros q.
  exact (X6_failed_request_stops_queue 2 q 1
           [RequestQueueService.Completes 2; RequestQueueService.Subscribes 4]%nat
           eq_refl eq_refl).
Defined.

(** X7. [batchDownloadFiles] starts the downloads of the first
    [concurrent] file ids at once, in the order of the array, and leaves the
    others waiting in that order. *)
Theorem X7_batch_download_starts_first_files (concurrent : nat) (fileIds : list string) :
  let names := seq 0 (length fileIds) in
  RequestQueueService.run concurrent (batchDownloadFiles fileIds)
  = RequestQueueService.mkQueue (take concurrent names) (drop concurrent names)
                                (take concurrent names) names false.
Proof.
  simpl. apply batchDownloadFiles_run.
Qed.

(** X8. After [batchDownloadFiles], when as many downloads have completed
    as there are file ids, each while it was running and in whatever
    order, every file has been requested, in the order of the array, and
    nothing is running or waiting. *)
Theorem X8_batch_download_requests_every_file
        (concurrent : nat) (fileIds : list string) (rs : list nat) :
  let q0 := RequestQueueService.run concurrent (batchDownloadFiles fileIds) in
  completes_in_turn concurrent q0 rs ->
  length rs = length fileIds ->
  let q := fold_left (RequestQueueService.step concurrent)
                     (List.map RequestQueueService.Completes rs) q0 in
  RequestQueueService.started q = seq 0 (length fileIds)
  /\ RequestQueueService.active q = []
  /\ RequestQueueService.buffer q = [].
Proof.
  intros q0 Hok Hlen q.
  assert (Hinv0 : gate_inv concurrent q0) by apply run_inv.
  assert (Hq0 : q0 = RequestQueueService.mkQueue
                       (take concurrent (seq 0 (length fileIds)))
                       (drop concurrent (seq 0 (length fileIds)))
                       (take concurrent (seq 0 (length fileIds)))
                       (seq 0 (length fileIds)) false)
    by apply batchDownloadFiles_run.
  assert (Hopen : RequestQueueService.closed q0 = false) by (rewrite Hq0; reflexivity).
  destruct (completes_in_turn_run concurrent rs q0 Hinv0 Hopen Hok)
    as ((_ & Harr & _) & Harr0 & Hsum).
  fold q in Harr, Harr0, Hsum.
  assert (Htotal : (length (RequestQueueService.active q0)
                    + length (RequestQueueService.buffer q0) = length fileIds)%nat).
  { rewrite Hq0. simpl. rewrite <- length_app, take_drop, length_seq. reflexivity. }
  assert (Ha : RequestQueueService.active q = [])
    by (destruct (RequestQueueService.active q); [reflexivity | simpl in Hsum; lia]).
  assert (Hb : RequestQueueService.buffer q = [])
    by (destruct (RequestQueueService.buffer q); [reflexivity | simpl in Hsum; lia]).
  repeat split; try assumption.
  rewrite Hb, app_nil_r in Harr. rewrite <- Harr, Harr0, Hq0. reflexivity.
Qed.

Lemma X8_batch_download_requests_every_file_witness :
  let q0 := RequestQueueService.run 2 (batchDownloadFiles ["a"; "b"; "c"]) in
  completes_in_turn 2 q0 [1; 0; 2]%nat
  /\ RequestQueueService.started
       (fold_left (RequestQueueService.step 2)
                  (List.map RequestQueueService.Completes [1; 0; 2]%nat) q0)
     = [0; 1; 2]%nat.
Proof.
  intros q0.
  assert (Hok : completes_in_turn 2 q0 [1; 0; 2]%nat)
    by (repeat split; reflexivity).
  split; [exact Hok|].
  exact (proj1 (X8_batch_download_requests_every_file 2 ["a"; "b"; "c"] [1; 0; 2]%nat
                  Hok eq_refl)).
Defined.



(** ** TokenRefreshService over several refreshes *)

Section SiblingMore.

Import TokenRefreshService.

Lemma stopped_forever (error : Err) (events : list Event) :
  forall s,
    refreshSubject s = Stopped error ->
    let s' := fold_left step events s in
    refreshSubject s' = Stopped error
    /\ delivered s'
       = delivered s ++ List.map (fun c => (c, Error error)) (token_callers events).
Proof.
  induction events as [|e events IH]; intros s Hs; simpl.
  - rewrite app_nil_r. auto.
  - assert (Hstep : refreshSubject (step s e) = Stopped error
                    /\ delivered (step s e)
                       = delivered s ++ match e with
                                        | Calls c => [(c, Error error)]
                                        | _ => []
                                        end).
    { destruct e as [c|tokens|err]; simpl.
      - unfold refreshToken.
        destruct (refreshInProgress s); simpl; rewrite Hs; simpl; auto.
      - unfold onNext. destruct (refreshInProgress s); simpl; rewrite ?Hs, ?app_nil_r; auto.
      - unfold onError. destruct (refreshInProgress s); simpl; rewrite ?Hs, ?app_nil_r; auto. }
    destruct Hstep as [Hsub Hdel].
    destruct (IH (step s e) Hsub) as [Hsub' Hdel'].
    split; [exact Hsub'|]. rewrite Hdel', Hdel, <- app_assoc.
    destruct e; reflexivity.
Qed.

Lemma outstanding_calls (events : list Event) :
  forall s,
    let s' := fold_left step events s in
    (refreshCalls s' + (if refreshInProgress s then 1 else 0)
     <= refreshCalls s + token_answers events
        + (if refreshInProgress s' then 1 else 0))%nat.
Proof.
  induction events as [|e events IH]; intros s; simpl;
    [unfold token_answers; simpl; lia|].
  specialize (IH (step s e)). simpl in IH.
  assert (Hstep : (refreshCalls (step s e) + (if refreshInProgress s then 1 else 0)
                   <= refreshCalls s
                      + match e with Calls _ => 0 | _ => 1 end
                      + (if refreshInProgress (step s e) then 1 else 0))%nat).
  { destruct s as [p subj n d].
    destruct e as [c|tokens|err]; simpl;
      unfold refreshToken, onNext, onError; simpl;
      destruct p, subj; simpl; lia. }
  unfold token_answers in *. destruct e; simpl in *; lia.
Qed.

End SiblingMore.

(** X10. Once a refresh of [TokenRefreshService] has failed, its subject
    stays in error: every caller from then on receives that first error at
    once, and never tokens, even when later refreshes are answered with
    tokens. *)
Theorem X10_failed_refresh_poisons_service
        (c0 : nat) (cs : list nat) (error : Err)
        (later : list TokenRefreshService.Event) :
  let s := TokenRefreshService.run
             (TokenRefreshService.Calls c0 :: List.map TokenRefreshService.Calls cs
              ++ [TokenRefreshService.RespondsError error] ++ later) in
  TokenRefreshService.delivered s
  = List.map (fun c => (c, Error error)) (c0 :: cs ++ token_callers later)
  /\ TokenRefreshService.refreshSubject s = TokenRefreshService.Stopped error.
Proof.
  cbv zeta. unfold TokenRefreshService.run. cbn [fold_left].
  rewrite fold_left_app.
  change (TokenRefreshService.step TokenRefreshService.start (TokenRefreshService.Calls c0))
    with (TokenRefreshService.mkState true (TokenRefreshService.Open [c0]) 1 []).
  rewrite sibling_joiners. cbn [app fold_left].
  set (s1 := TokenRefreshService.step _ (TokenRefreshService.RespondsError error)).
  assert (Hs1 : s1 = TokenRefreshService.mkState false (TokenRefreshService.Stopped error) 1
                       (List.map (fun c => (c, Error error)) (c0 :: cs)))
    by reflexivity.
  destruct (stopped_forever error later s1 ltac:(rewrite Hs1; reflexivity)) as [Hsub Hlater].
  split; [|exact Hsub].
  rewrite Hlater, Hs1. cbn [TokenRefreshService.delivered].
  rewrite <- List.map_app. reflexivity.
Qed.

(** X11. In one refresh of a fresh [TokenRefreshService], the caller that
    starts it and the callers that join it all receive the same outcome, the
    tokens or the error, and one call to [AuthService.refreshToken] is
    made for all of them. *)
Theorem X11_one_outcome_for_all_callers
        (c0 : nat) (cs : list nat) (tokens : AuthTokens) (error : Err) :
  let ok := TokenRefreshService.run
              (TokenRefreshService.Calls c0 :: List.map TokenRefreshService.Calls cs
               ++ [TokenRefreshService.Responds tokens]) in
  let ko := TokenRefreshService.run
              (TokenRefreshService.Calls c0 :: List.map TokenRefreshService.Calls cs
               ++ [TokenRefreshService.RespondsError error]) in
  TokenRefreshService.delivered ok = List.map (fun c => (c, Next tokens)) (c0 :: cs)
  /\ TokenRefreshService.refreshCalls ok = 1%nat
  /\ TokenRefreshService.delivered ko = List.map (fun c => (c, Error error)) (c0 :: cs)
  /\ TokenRefreshService.refreshCalls ko = 1%nat.
Proof.
  simpl.
  destruct (sibling_success_shared c0 cs tokens) as (H1 & H2 & _).
  destruct (sibling_failure_shared c0 cs error) as (H3 & H4 & _).
  auto.
Qed.

(** X12. [TokenRefreshService] never has two calls to
    [AuthService.refreshToken] unanswered: after any events the number of
    calls made is at most the number of answers received, plus one while a
    refresh is in progress. *)
Theorem X12_one_unanswered_refresh_call (events : list TokenRefreshService.Event) :
  let s := TokenRefreshService.run events in
  (TokenRefreshService.refreshCalls s
   <= token_answers events
      + (if TokenRefreshService.refreshInProgress s then 1 else 0))%nat.
Proof.
  simpl. pose proof (outstanding_calls events TokenRefreshService.start) as H.
  simpl in H. unfold TokenRefreshService.run. lia.
Qed.

(** ** AuthService.refreshToken: what holds for every schedule *)

(** X13. However callers and answers are interleaved, a service that starts
    idle never has more than one refresh request unanswered, and a caller
    that arrives while a refresh is in progress sends no request. *)
Theorem X13_refresh_requests_never_overlap
        (s0 : AuthServiceState) (events : list RefreshRace.Event) (c : nat) :
  refreshTokenInProgress s0 = false ->
  let s := RefreshRace.run s0 events in
  (length (RefreshRace.inflight s) <= 1)%nat
  /\ (refreshTokenInProgress (auth (RefreshRace.world s)) = true ->
      sent (RefreshRace.world (RefreshRace.calls c s)) = sent (RefreshRace.world s)
      /\ RefreshRace.inflight (RefreshRace.calls c s) = RefreshRace.inflight s).
Proof.
  intros Hidle s. split.
  - apply at_most_one_refresh_in_flight, Hidle.
  - intros Hflag. destruct (calls_in_progress c s Hflag) as [Hw Hi].
    rewrite Hw. auto.
Qed.

Lemma X13_refresh_requests_never_overlap_witness :
  let s0 := mkAuth "https://api" false None (Some (mkTokens "a0" "r0" 900)) in
  let s := RefreshRace.run s0 [RefreshRace.Calls 1; RefreshRace.Calls 2] in
  refreshTokenInProgress s0 = false
  /\ (length (RefreshRace.inflight s) <= 1)%nat
  /\ sent (RefreshRace.world (RefreshRace.calls 3 s)) = sent (RefreshRace.world s).
Proof.
  intros s0 s. split; [reflexivity|].
  destruct (X13_refresh_requests_never_overlap s0
              [RefreshRace.Calls 1; RefreshRace.Calls 2] 3 eq_refl) as [Hone Hjoin].
  split; [exact Hone | exact (proj1 (Hjoin eq_refl))].
Defined.

(** X14. In the first refresh of a service (its subject still holds null),
    the caller that starts it and every caller that joins it receive the same
    new tokens when the refresh succeeds, nobody is left waiting, and one
    refresh request has been sent. *)
Theorem X14_first_refresh_is_shared
        (s0 : AuthServiceState) (c0 : nat) (cs : list nat) (tokens : AuthTokens) :
  refreshTokenInProgress s0 = false ->
  refreshTokenSubject s0 = None ->
  let s := RefreshRace.run s0
             (RefreshRace.Calls c0 :: List.map RefreshRace.Calls cs
              ++ [RefreshRace.Responds tokens]) in
  RefreshRace.delivered s = List.map (fun c => (c, Next tokens)) (cs ++ [c0])
  /\ sent (RefreshRace.world s) = [AuthService.refreshRequest s0]
  /\ RefreshRace.waiting s = []
  /\ storedTokens (auth (RefreshRace.world s)) = Some tokens.
Proof.
  intros Hidle Hnull s.
  destruct (first_refresh_shared s0 c0 cs tokens Hidle Hnull) as (Hd & Hs & Hw & _).
  fold s in Hd, Hs, Hw. repeat split; try assumption.
  subst s. unfold RefreshRace.run. simpl fold_left.
  rewrite fold_left_app.
  rewrite (calls_idle c0 (RefreshRace.start s0) Hidle). simpl.
  rewrite joiners_wait; [|reflexivity|exact Hnull]. reflexivity.
Qed.

Lemma X14_first_refresh_is_shared_witness :
  let s0 := mkAuth "https://api" false None (Some (mkTokens "a0" "r0" 900)) in
  let t1 := mkTokens "a1" "r1" 900 in
  (refreshTokenInProgress s0 = false /\ refreshTokenSubject s0 = None)
  /\ RefreshRace.delivered
       (RefreshRace.run s0 [RefreshRace.Calls 1; RefreshRace.Calls 2;
                            RefreshRace.Calls 3; RefreshRace.Responds t1])
     = [(2%nat, Next t1); (3%nat, Next t1); (1%nat, Next t1)].
Proof.
  intros s0 t1. split; [split; reflexivity|].
  exact (proj1 (X14_first_refresh_is_shared s0 1 [2; 3]%nat t1 eq_refl eq_refl)).
Defined.

(** ** AuthInterceptor: requests that need no refresh, and login *)

Lemma login_url_is_auth_endpoint (s : AuthServiceState) (credentials : string) :
  AuthInterceptor.isAuthEndpoint (url (AuthService_loginRequest s credentials)) = true.
Proof.
  unfold AuthInterceptor.isAuthEndpoint, AuthService_loginRequest. simpl url.
  rewrite (includes_suffix (apiUrl s) "/auth/login"). reflexivity.
Qed.

(** X15. Without stored tokens a request to any URL other than the login and
    refresh endpoints is not sent at all: the interceptor ends with the error
    "No tokens found", the next handler is never called and nothing
    changes. *)
Theorem X15_no_tokens_no_request
        (fuel : nat) (A : Type) (req : HttpRequest) (next : HttpRequest -> M A)
        (w : World) :
  AuthInterceptor.isAuthEndpoint (url req) = false ->
  storedTokens (auth w) = None ->
  AuthInterceptor.intercept (S fuel) req next w
  = Some (Error (JsError "No tokens found"), w).
Proof.
  intros Hurl Hnone. rewrite (intercept_other _ _ _ Hurl).
  unfold Obs.catchError, Obs.switchMap.
  rewrite (addAuthHeader_logged_out _ _ Hnone). reflexivity.
Qed.

Lemma X15_no_tokens_no_request_witness :
  let req := mkRequest "GET" "https://api/public/news" [] ∅ NoBody in
  let w := mkWorld (mkAuth "https://api" false None None)
                   [Ok (mkResponse 200 "news")] [] [] in
  AuthInterceptor.isAuthEndpoint (url req) = false
  /\ AuthInterceptor.intercept 1 req backend_api w
     = Some (Error (JsError "No tokens found"), w).
Proof.
  intros req w.
  assert (Hurl : AuthInterceptor.isAuthEndpoint (url req) = false) by reflexivity.
  split; [exact Hurl|].
  exact (X15_no_tokens_no_request 0 HttpResponse req backend_api w Hurl eq_refl).
Defined.

(** X16. With stored tokens, a request to another URL than the login and
    refresh endpoints whose answer is not a 401 is sent exactly once, with
    the stored access token as Bearer credential; the answer, a response or
    an error of any other status, is returned as it is, and neither a
    refresh request nor a change of the stored tokens takes place. *)
Theorem X16_other_answers_pass_through
        (fuel : nat) (req : HttpRequest) (w : World) (t0 : AuthTokens)
        (reply : Reply HttpResponse) (rest : list (Reply HttpResponse)) :
  AuthInterceptor.isAuthEndpoint (url req) = false ->
  storedTokens (auth w) = Some t0 ->
  apiReplies w = reply :: rest ->
  reply <> Fail 401 ->
  AuthInterceptor.intercept (S fuel) req backend_api w
  = Some (reply_result (url req) reply,
          mkWorld (auth w) rest (refreshReplies w)
                  (sent w ++ [clone_set_header req "Authorization"
                                               (AuthInterceptor.bearer t0)])).
Proof.
  intros Hurl Hstored Hreplies Hnot. rewrite (intercept_other _ _ _ Hurl).
  unfold Obs.catchError, Obs.switchMap.
  rewrite (addAuthHeader_stored _ _ _ Hstored).
  unfold backend_api. rewrite Hreplies.
  destruct reply as [resp|status]; [reflexivity|].
  cbn [reply_result AuthInterceptor.is401].
  destruct (Z.eqb_spec status 401) as [->|_]; [congruence | reflexivity].
Qed.

Lemma X16_other_answers_pass_through_witness :
  let req := mkRequest "GET" "https://api/users/profile" [] ∅ NoBody in
  let t0 := mkTokens "a0" "r0" 900 in
  let s := mkAuth "https://api" false None (Some t0) in
  let w := mkWorld s [Fail 403] [Ok (mkTokens "a1" "r1" 900)] [] in
  (AuthInterceptor.isAuthEndpoint (url req) = false /\ Fail 403 <> Fail (A:=HttpResponse) 401)
  /\ AuthInterceptor.intercept 1 req backend_api w
     = Some (Error (HttpErrorResponse "https://api/users/profile" 403 None),
             mkWorld s [] [Ok (mkTokens "a1" "r1" 900)]
                     [clone_set_header req "Authorization" "Bearer a0"]).
Proof.
  intros req t0 s w.
  assert (Hurl : AuthInterceptor.isAuthEndpoint (url req) = false) by reflexivity.
  assert (Hne : Fail 403 <> Fail (A:=HttpResponse) 401) by discriminate.
  split; [split; assumption|].
  exact (X16_other_answers_pass_through 0 req w t0 (Fail 403) [] Hurl eq_refl eq_refl Hne).
Defined.

(** X17. A successful login stores the tokens of the answer: the login
    request itself is sent without an Authorization header, and the next
    request that the interceptor prepares carries the access token of the
    login.  A failed login leaves the stored tokens as they were. *)
Theorem X17_login_stores_tokens
        (fuel : nat) (w : World) (credentials : string) (tokens : AuthTokens)
        (status : Z) (rrest : list (Reply AuthTokens)) (req : HttpRequest) :
  let http_post := fun r => AuthInterceptor.intercept (S fuel) r backend_auth in
  let loginReq := AuthService_loginRequest (auth w) credentials in
  (refreshReplies w = Ok tokens :: rrest ->
   let w' := mkWorld (AuthService.storeTokens tokens (auth w)) (apiReplies w) rrest
                     (sent w ++ [loginReq]) in
   AuthService_login http_post credentials w = Some (Next tokens, w')
   /\ AuthInterceptor.addAuthHeader req w'
      = Some (Next (clone_set_header req "Authorization" (AuthInterceptor.bearer tokens)),
              w'))
  /\ (refreshReplies w = Fail status :: rrest ->
      AuthService_login http_post credentials w
      = Some (Error (HttpErrorResponse (url loginReq) status None),
              mkWorld (auth w) (apiReplies w) rrest (sent w ++ [loginReq])))
  /\ HttpHeaders_get "Authorization" (headers loginReq) = None.
Proof.
  intros http_post loginReq.
  assert (Hpost : http_post loginReq = backend_auth loginReq)
    by (apply intercept_auth_endpoint, login_url_is_auth_endpoint).
  split; [|split; [|reflexivity]].
  - intros Hreply w'. split.
    + unfold AuthService_login, Obs.tap, Obs.switchMap. fold loginReq.
      rewrite Hpost. unfold backend_auth. rewrite Hreply. reflexivity.
    + apply addAuthHeader_stored. reflexivity.
  - intros Hreply. unfold AuthService_login, Obs.tap, Obs.switchMap. fold loginReq.
    rewrite Hpost. unfold backend_auth. rewrite Hreply. reflexivity.
Qed.

Lemma X17_login_stores_tokens_witness :
  let t := mkTokens "a1" "r1" 900 in
  let w := mkWorld (mkAuth "https://api" false None None) [] [Ok t] [] in
  refreshReplies w = [Ok t]
  /\ AuthService_login (fun r => AuthInterceptor.intercept 1 r backend_auth) "{}" w
     = Some (Next t,
             mkWorld (mkAuth "https://api" false None (Some t)) [] []
                     [mkRequest "POST" "https://api/auth/login" [] ∅ (JsonBody "{}")]).
Proof.
  intros t w. split; [reflexivity|].
  exact (proj1 (proj1 (X17_login_stores_tokens 0 w "{}" t 0 []
                         (mkRequest "GET" "https://api/x" [] ∅ NoBody)) eq_refl)).
Defined.

(** X18. The header that the interceptor sets replaces an Authorization
    header of the caller, however the caller spelled its name in upper and
    lower case; every other header, the method, the URL, the query
    parameters and the body of the request are left as they were. *)
Theorem X18_bearer_replaces_caller_header
        (req : HttpRequest) (value name : string) :
  let authReq := clone_set_header req "Authorization" value in
  (Js.toLowerCase name = "authorization" ->
   HttpHeaders_get name (headers authReq) = Some value)
  /\ (Js.toLowerCase name <> "authorization" ->
      HttpHeaders_get name (headers authReq) = HttpHeaders_get name (headers req))
  /\ method authReq = method req /\ url authReq = url req
  /\ params authReq = params req /\ body authReq = body req.
Proof.
  simpl. unfold HttpHeaders_get, HttpHeaders_set.
  change (Js.toLowerCase "Authorization") with "authorization".
  split; [|split; [|auto]].
  - intros ->. apply lookup_insert_eq.
  - intros Hne. apply lookup_insert_ne. congruence.
Qed.

Lemma X18_bearer_replaces_caller_header_witness :
  let req := mkRequest "GET" "https://api/x" []
               (HttpHeaders_set "AUTHORIZATION" "Basic abc"
                  (HttpHeaders_set "Accept" "application/json" ∅)) NoBody in
  let authReq := clone_set_header req "Authorization" "Bearer a0" in
  HttpHeaders_get "authorization" (headers authReq) = Some "Bearer a0"
  /\ HttpHeaders_get "Accept" (headers authReq) = Some "application/json".
Proof.
  intros req authReq.
  destruct (X18_bearer_replaces_caller_header req "Bearer a0" "authorization")
    as (Hset & _).
  destruct (X18_bearer_replaces_caller_header req "Bearer a0" "Accept")
    as (_ & Hkeep & _).
  split; [exact (Hset eq_refl)|].
  exact (eq_trans (Hkeep ltac:(discriminate)) eq_refl).
Defined.

(** ** CacheInterceptor and CacheService over several requests *)

Lemma intercept_keeps_entry (cache : gmap string HttpResponse) (req : HttpRequest)
      (reply : Reply HttpResponse) (u : string) (r : HttpResponse) :
  cache !! u = Some r ->
  CacheInterceptor.cacheAfter (CacheInterceptor.intercept cache req reply) !! u = Some r.
Proof.
  intros Hu. unfold CacheInterceptor.intercept.
  destruct (negb (String.eqb (method req) "GET")); [exact Hu|].
  destruct (cache !! url req) eqn:Hreq; [exact Hu|].
  destruct reply as [event|status]; simpl; [|exact Hu].
  rewrite lookup_insert_ne; [exact Hu | congruence].
Qed.

Lemma intercept_entry_origin (cache : gmap string HttpResponse) (req : HttpRequest)
      (reply : Reply HttpResponse) (u : string) (r : HttpResponse) :
  CacheInterceptor.cacheAfter (CacheInterceptor.intercept cache req reply) !! u = Some r ->
  cache !! u = Some r
  \/ (reply = Ok r /\ method req = "GET" /\ url req = u).
Proof.
  unfold CacheInterceptor.intercept.
  destruct (String.eqb_spec (method req) "GET") as [Hm|Hm]; simpl; [|auto].
  destruct (cache !! url req) eqn:Hreq; simpl; [auto|].
  destruct reply as [event|status]; simpl; [|auto].
  destruct (decide (url req = u)) as [<-|Hne].
  - rewrite lookup_insert_eq. intros [= <-]. auto.
  - rewrite lookup_insert_ne by exact Hne. auto.
Qed.

(** X19. Once a URL is in the cache of [CacheInterceptor] its entry never
    changes and never expires: after any further requests every GET of that
    URL, whatever its query parameters, headers or body, is answered with
    the response cached first and is not given to the next handler. *)
Theorem X19_cached_response_is_served_for_ever
        (cache : gmap string HttpResponse)
        (calls : list (HttpRequest * Reply HttpResponse))
        (u : string) (r : HttpResponse) (req : HttpRequest) (reply : Reply HttpResponse) :
  cache !! u = Some r ->
  method req = "GET" ->
  url req = u ->
  let final := CacheInterceptor_after cache calls in
  final !! u = Some r
  /\ CacheInterceptor.intercept final req reply
     = CacheInterceptor.mkOutcome (Next r) final [].
Proof.
  intros Hu Hm Hurl final.
  assert (Hfinal : final !! u = Some r).
  { subst final. revert cache Hu.
    induction calls as [|[rq rp] calls IH]; intros cache Hu; simpl; [exact Hu|].
    apply IH, intercept_keeps_entry, Hu. }
  split; [exact Hfinal|].
  unfold CacheInterceptor.intercept. rewrite Hm, Hurl, Hfinal. reflexivity.
Qed.

Lemma X19_cached_response_is_served_for_ever_witness :
  let get := fun p => mkRequest "GET" "/api/posts" p ∅ NoBody in
  let cache := CacheInterceptor_after ∅ [(get [("page", "1")], Ok (mkResponse 200 "page one"))] in
  cache !! "/api/posts" = Some (mkResponse 200 "page one")
  /\ CacheInterceptor.value
       (CacheInterceptor.intercept
          (CacheInterceptor_after cache
             [(mkRequest "PUT" "/api/posts" [] ∅ (JsonBody "{}"), Ok (mkResponse 200 "saved"))])
          (get [("page", "2")]) (Ok (mkResponse 200 "page two")))
     = Next (mkResponse 200 "page one").
Proof.
  intros get cache.
  assert (Hu : cache !! "/api/posts" = Some (mkResponse 200 "page one"))
    by (vm_compute; reflexivity).
  split; [exact Hu|].
  destruct (X19_cached_response_is_served_for_ever cache
              [(mkRequest "PUT" "/api/posts" [] ∅ (JsonBody "{}"), Ok (mkResponse 200 "saved"))]
              "/api/posts" (mkResponse 200 "page one") (get [("page", "2")])
              (Ok (mkResponse 200 "page two")) Hu eq_refl eq_refl) as [_ H].
  rewrite H. reflexivity.
Defined.

(** X20. The cache of [CacheInterceptor] only ever holds what it started
    with and responses of successful GET requests, each under the URL of its
    request: errors and the responses to other methods are never cached. *)
Theorem X20_only_successful_gets_are_cached
        (calls : list (HttpRequest * Reply HttpResponse))
        (cache : gmap string HttpResponse) (u : string) (r : HttpResponse) :
  CacheInterceptor_after cache calls !! u = Some r ->
  cache !! u = Some r
  \/ exists req, In (req, Ok r) calls /\ method req = "GET" /\ url req = u.
Proof.
  revert cache. induction calls as [|[rq rp] calls IH]; intros cache H; simpl in H.
  - auto.
  - destruct (IH _ H) as [Hc|(req & Hin & Hm & Hu)].
    + destruct (intercept_entry_origin _ _ _ _ _ Hc) as [Hc'|(-> & Hm & Hu)]; [auto|].
      right. exists rq. simpl. auto.
    + right. exists req. simpl. auto.
Qed.

Lemma X20_only_successful_gets_are_cached_witness :
  let get := mkRequest "GET" "/api/a" [] ∅ NoBody in
  let calls := [(get, Fail 500); (get, Ok (mkResponse 200 "a"))] in
  CacheInterceptor_after ∅ calls !! "/api/a" = Some (mkResponse 200 "a")
  /\ exists req, In (req, Ok (mkResponse 200 "a")) calls
                 /\ method req = "GET" /\ url req = "/api/a".
Proof.
  intros get calls.
  assert (H : CacheInterceptor_after ∅ calls !! "/api/a" = Some (mkResponse 200 "a"))
    by (vm_compute; reflexivity).
  split; [exact H|].
  destruct (X20_only_successful_gets_are_cached calls ∅ "/api/a" (mkResponse 200 "a") H)
    as [Hempty|Hex]; [|exact Hex].
  rewrite lookup_empty in Hempty. discriminate.
Defined.

(** X21. [CacheService.getData] never removes an entry: the entries of
    other URLs are untouched, every URL that was cached stays cached, and
    when the network call fails the cache is left exactly as it was, an
    expired entry included. *)
Theorem X21_cache_service_never_evicts
        (cache : gmap string CacheService.CacheEntry) (url k : string) (now : Z)
        (answer : CacheService.Answer) :
  let after := CacheService.cacheAfter (CacheService.getData cache url now answer) in
  (k <> url -> after !! k = cache !! k)
  /\ (is_Some (cache !! k) -> is_Some (after !! k))
  /\ (forall e, CacheService.response answer = inr e -> after = cache).
Proof.
  simpl. unfold CacheService.getData, CacheService.getData_subscribed,
    CacheService.getData_answered.
  destruct (CacheService.get cache url now) as [d|]; simpl; [auto|].
  destruct (CacheService.response answer) as [r|e]; simpl; [|auto].
  split; [|split].
  - intros Hne. apply lookup_insert_ne. congruence.
  - intros Hk. destruct (decide (url = k)) as [->|Hne].
    + rewrite lookup_insert_eq. eauto.
    + rewrite lookup_insert_ne by exact Hne. exact Hk.
  - intros e [=].
Qed.

(** X22. [CacheService.getData] makes no network call exactly when the URL
    has an entry that is at most [MAX_CACHE_AGE] old (an entry of exactly
    that age is still served); in every other case it makes exactly one. *)
Theorem X22_network_call_unless_fresh
        (cache : gmap string CacheService.CacheEntry) (url : string) (now : Z)
        (answer : CacheService.Answer) :
  let calls := CacheService.httpCalls (CacheService.getData cache url now answer) in
  (calls = 0%nat <->
   exists entry, cache !! url = Some entry
                 /\ now - CacheService.timestamp entry <= CacheService.MAX_CACHE_AGE)
  /\ (calls = 0%nat \/ calls = 1%nat).
Proof.
  simpl. unfold CacheService.getData, CacheService.getData_subscribed,
    CacheService.getData_answered.
  destruct (CacheService.get cache url now) as [d|] eqn:Hget.
  - simpl. split; [|auto]. split; [|reflexivity]. intros _.
    apply get_Some in Hget as (entry & He & _ & Hage). eauto.
  - assert (Hno : ~ exists entry, cache !! url = Some entry
                    /\ now - CacheService.timestamp entry <= CacheService.MAX_CACHE_AGE).
    { intros (entry & He & Hage).
      assert (H : CacheService.get cache url now = Some (CacheService.data entry))
        by (apply get_Some; eauto).
      congruence. }
    destruct (CacheService.response answer); simpl; (split; [|auto]);
      (split; [discriminate | intros H; destruct (Hno H)]).
Qed.

Example getData_boundary :
  let cache : gmap string CacheService.CacheEntry :=
    {[ "/api/data" := CacheService.mkEntry "old" 1000 ]} in
  CacheService.httpCalls
    (CacheService.getData cache "/api/data" 301000 (CacheService.mkAnswer 301010 (inl "new")))
  = 0%nat
  /\ CacheService.httpCalls
       (CacheService.getData cache "/api/data" 301001 (CacheService.mkAnswer 301010 (inl "new")))
     = 1%nat.
Proof. split; vm_compute; reflexivity. Qed.

(** ** retryWithBackoff and getPostsWithRetry as a whole *)

Lemma backoff_run_delays {A} (maxRetries backoffMs : Z) (script : list (A + Err)) :
  forall index,
    let delays := fst (RetryWithBackoff.run maxRetries backoffMs index script) in
    delays = List.map (fun i => (Z.of_nat (index + i) + 1) * backoffMs)
                      (seq 0 (length delays))
    /\ (delays <> [] -> Z.of_nat (index + length delays) <= maxRetries).
Proof.
  induction script as [|[v|e] script IH]; intros index; simpl;
    [split; [reflexivity|congruence] | split; [reflexivity|congruence] |].
  unfold RetryWithBackoff.onError.
  destruct (Z.ltb_spec maxRetries (Z.of_nat index + 1)) as [Hlt|Hle]; simpl;
    [split; [reflexivity|congruence]|].
  specialize (IH (S index)). simpl in IH.
  destruct (RetryWithBackoff.run maxRetries backoffMs (S index) script) as [ds r].
  simpl in *. destruct IH as [Hds Hbound]. split.
  - rewrite Nat.add_0_r. f_equal.
    rewrite Hds at 1. rewrite <- seq_shift, List.map_map.
    apply List.map_ext. intros i. f_equal. lia.
  - intros _. destruct ds as [|d ds']; [simpl; lia|].
    specialize (Hbound ltac:(discriminate)). simpl in *. lia.
Qed.

(** X23. Whatever the source does, [retryWithBackoff(maxRetries, backoffMs)]
    waits [backoffMs], then [2 * backoffMs], then [3 * backoffMs] and so on
    before its successive retries, and makes at most [maxRetries] retries
    (none when [maxRetries] is zero or negative). *)
Theorem X23_backoff_delays_are_linear
        (A : Type) (maxRetries backoffMs : Z) (script : list (A + Err)) :
  let delays := fst (RetryWithBackoff.run maxRetries backoffMs 0 script) in
  delays = List.map (fun i => Z.of_nat (S i) * backoffMs) (seq 0 (length delays))
  /\ Z.of_nat (length delays) <= Z.max 0 maxRetries.
Proof.
  simpl. destruct (backoff_run_delays maxRetries backoffMs script 0%nat) as [Hds Hbound].
  simpl in *. split.
  - rewrite Hds at 1. apply List.map_ext. intros i. f_equal. lia.
  - destruct (fst (RetryWithBackoff.run maxRetries backoffMs 0 script)) as [|d ds];
      [simpl; lia|].
    specialize (Hbound ltac:(discriminate)). lia.
Qed.

Lemma backoff_gives_up {A} (maxRetries backoffMs : Z) (rest : list (A + Err))
      (errors : list Err) :
  forall index last_error,
    last errors = Some last_error ->
    Z.of_nat (index + length errors) = maxRetries + 1 ->
    RetryWithBackoff.run maxRetries backoffMs index (List.map inr errors ++ rest)
    = (List.map (fun i => (Z.of_nat (index + i) + 1) * backoffMs)
                (seq 0 (length errors - 1)),
       Error last_error).
Proof.
  induction errors as [|e errors IH]; intros index last_error Hlast Hlen;
    [discriminate|].
  cbn [List.map app RetryWithBackoff.run]. unfold RetryWithBackoff.onError.
  destruct errors as [|e' errors'].
  - simpl in Hlast, Hlen. injection Hlast as <-.
    destruct (Z.ltb_spec maxRetries (Z.of_nat index + 1)); [reflexivity | lia].
  - simpl length in Hlen.
    destruct (Z.ltb_spec maxRetries (Z.of_nat index + 1)) as [Hlt|_]; [lia|].
    rewrite (IH (S index) last_error); [|exact Hlast|simpl length; lia].
    simpl length. replace (S (S (length errors')) - 1)%nat with (S (length errors')) by lia.
    replace (S (length errors') - 1)%nat with (length errors') by lia.
    cbn [seq List.map]. rewrite Nat.add_0_r. f_equal. f_equal.
    rewrite <- seq_shift, List.map_map. apply List.map_ext. intros i. f_equal. lia.
Qed.

(** X27. When the source fails [maxRetries + 1] times in a row,
    [retryWithBackoff] gives up after [maxRetries] retries and passes on the
    error of the last attempt, not the one of the first. *)
Theorem X27_backoff_passes_on_last_error
        (A : Type) (maxRetries : nat) (backoffMs : Z) (errors : list Err)
        (last_error : Err) (rest : list (A + Err)) :
  length errors = S maxRetries ->
  last errors = Some last_error ->
  RetryWithBackoff.run (Z.of_nat maxRetries) backoffMs 0 (List.map inr errors ++ rest)
  = (List.map (fun i => Z.of_nat (S i) * backoffMs) (seq 0 maxRetries),
     Error last_error).
Proof.
  intros Hlen Hlast.
  rewrite (backoff_gives_up (Z.of_nat maxRetries) backoffMs rest errors 0%nat last_error
             Hlast ltac:(simpl; lia)).
  rewrite Hlen. replace (S maxRetries - 1)%nat with maxRetries by lia.
  f_equal. apply List.map_ext. intros i. f_equal. lia.
Qed.

Lemma X27_backoff_passes_on_last_error_witness :
  let errors := [HttpErrorResponse "u" 500 None; HttpErrorResponse "u" 502 None;
                 HttpErrorResponse "u" 503 None; HttpErrorResponse "u" 504 None] in
  (length errors = 4%nat /\ last errors = Some (HttpErrorResponse "u" 504 None))
  /\ RetryWithBackoff.run 3 1000 0 (List.map inr errors ++ [inl "late"])
     = ([1000; 2000; 3000], Error (HttpErrorResponse "u" 504 None)).
Proof.
  intros errors. split; [split; reflexivity|].
  exact (X27_backoff_passes_on_last_error string 3 1000 errors
           (HttpErrorResponse "u" 504 None) [inl "late"] eq_refl eq_refl).
Defined.

Section RetrySuccess.

Context {A : Type}.

Lemma retry_until_success (failures : list (Z * Err)) (l : Z) (v : A)
      (rest : list (Rx.Attempt A)) :
  forall soFar now,
    (soFar + length failures <= 3)%nat ->
    let r := Rx.retry 3 soFar now
               (failed_attempts failures ++ Rx.mkAttempt l (inl v) :: rest) in
    Rx.finished r = Some (now + total_latency failures + l, inl v)
    /\ length (Rx.subscriptions r) = S (length failures).
Proof.
  induction failures as [|[lf e] failures IH]; intros soFar now Hle; simpl.
  - split; [f_equal; f_equal; lia | reflexivity].
  - unfold Rx.retry_resubscribes.
    destruct (Nat.ltb_spec soFar 3) as [_|Hge]; [|simpl in Hle; lia].
    simpl in Hle. destruct (IH (S soFar) (now + lf) ltac:(lia)) as [Hf Hs].
    simpl. rewrite Hf, Hs. split; [f_equal; f_equal; lia | reflexivity].
Qed.

Lemma getPostsWithRetry_outcome (script : list (Rx.Attempt A)) :
  exists t o,
    Rx.finished (HttpDemoService.getPostsWithRetry script) = Some (t, o)
    /\ t <= 5000
    /\ ((exists v, o = inl v)
        \/ o = inr (JsError "Failed to fetch posts after 3 retries")).
Proof.
  unfold HttpDemoService.getPostsWithRetry.
  destruct (Rx.retry 3 0 0 script) as [subs [[t o]|]]; unfold Rx.timeout; simpl.
  - destruct (Z.ltb_spec t 5000) as [Hlt|Hge].
    + destruct o as [v|e]; unfold Rx.catchError; simpl; eexists _, _;
        (split; [reflexivity|]); (split; [lia | eauto]).
    + unfold Rx.catchError; simpl. eexists _, _.
      split; [reflexivity|]. split; [lia | auto].
  - unfold Rx.catchError; simpl. eexists _, _.
    split; [reflexivity|]. split; [lia | auto].
Qed.

End RetrySuccess.

(** X24. [getPostsWithRetry] always ends within 5000 milliseconds, with the
    posts or with the error "Failed to fetch posts after 3 retries": that
    message is what the caller gets for every failure, a timeout or a server
    that never answers included, and the original error is not passed on. *)
Theorem X24_retry_failures_are_masked (A : Type) (script : list (Rx.Attempt A)) :
  exists t o,
    Rx.finished (HttpDemoService.getPostsWithRetry script) = Some (t, o)
    /\ t <= 5000
    /\ ((exists v, o = inl v)
        \/ o = inr (JsError "Failed to fetch posts after 3 retries")).
Proof. apply getPostsWithRetry_outcome. Qed.

(** X25. When at most three attempts fail, the next one succeeds and the
    time spent on all of them stays under 5000 milliseconds,
    [getPostsWithRetry] delivers the posts of that attempt, having made one
    attempt more than there were failures. *)
Theorem X25_retry_delivers_first_success
        (A : Type) (failures : list (Z * Err)) (l : Z) (v : A)
        (rest : list (Rx.Attempt A)) :
  (length failures <= 3)%nat ->
  total_latency failures + l < 5000 ->
  let r := HttpDemoService.getPostsWithRetry
             (failed_attempts failures ++ Rx.mkAttempt l (inl v) :: rest) in
  Rx.finished r = Some (total_latency failures + l, inl v)
  /\ length (Rx.subscriptions r) = S (length failures).
Proof.
  intros Hlen Htime.
  destruct (retry_until_success failures l v rest 0%nat 0 ltac:(lia)) as [Hf Hs].
  simpl in Hf, Hs. simpl.
  unfold HttpDemoService.getPostsWithRetry.
  destruct (Rx.retry 3 0 0 (failed_attempts failures ++ Rx.mkAttempt l (inl v) :: rest))
    as [subs fin].
  simpl in Hf, Hs. subst fin. unfold Rx.timeout; simpl.
  destruct (Z.ltb_spec (0 + total_latency failures + l) 5000) as [_|Hge]; [|lia].
  unfold Rx.catchError; simpl. split; [f_equal; f_equal; lia | exact Hs].
Qed.

Lemma X25_retry_delivers_first_success_witness :
  let failures := [(100, HttpErrorResponse "u" 404 None); (200, TimeoutError)] in
  ((length failures <= 3)%nat /\ total_latency failures + 50 < 5000)
  /\ Rx.finished
       (HttpDemoService.getPostsWithRetry
          (failed_attempts failures ++ [Rx.mkAttempt 50 (inl "posts")]))
     = Some (350, inl "posts").
Proof.
  intros failures.
  assert (Hlen : (length failures <= 3)%nat) by (simpl; lia).
  assert (Htime : total_latency failures + 50 < 5000) by (simpl; lia).
  split; [split; assumption|].
  exact (proj1 (X25_retry_delivers_first_success string failures 50 "posts" [] Hlen Htime)).
Defined.

(** ** AdvancedFeaturesComponent *)

(** X26. After [demonstrateRetry] the component either shows the posts and
    no error, or shows the error "Retry demo error: Failed to fetch posts
    after 3 retries" beside the posts of an earlier success; in both cases
    the results of the other demos and the paging fields are untouched. *)
Theorem X26_retry_demo_outcome
        (Post : Type) (httpMessage : string -> Z -> string)
        (s : AdvancedFeaturesComponent.State Post)
        (script : list (Rx.Attempt (list Post))) :
  let s' := AdvancedFeaturesComponent.demonstrateRetry httpMessage s script in
  ((exists posts, AdvancedFeaturesComponent.retryResponse s' = Some posts
                  /\ AdvancedFeaturesComponent.error s' = None)
   \/ (AdvancedFeaturesComponent.error s'
       = Some "Retry demo error: Failed to fetch posts after 3 retries"
       /\ AdvancedFeaturesComponent.retryResponse s'
          = AdvancedFeaturesComponent.retryResponse s))
  /\ AdvancedFeaturesComponent.postsWithHeaders s' = AdvancedFeaturesComponent.postsWithHeaders s
  /\ AdvancedFeaturesComponent.postsWithParams s' = AdvancedFeaturesComponent.postsWithParams s
  /\ AdvancedFeaturesComponent.fullResponse s' = AdvancedFeaturesComponent.fullResponse s
  /\ AdvancedFeaturesComponent.userId s' = AdvancedFeaturesComponent.userId s
  /\ AdvancedFeaturesComponent.startIndex s' = AdvancedFeaturesComponent.startIndex s
  /\ AdvancedFeaturesComponent.limit s' = AdvancedFeaturesComponent.limit s.
Proof.
  simpl. unfold AdvancedFeaturesComponent.demonstrateRetry.
  destruct (getPostsWithRetry_outcome script) as (t & o & -> & _ & [[v ->]| ->]); simpl.
  - split; [left; eauto | auto 10].
  - split; [right; auto | auto 10].
Qed.

(** The request of [demonstrateParams] always carries [_start] and
    [_limit]; it carries [userId] exactly when the field is not 0. *)
Lemma demonstrateParams_request_params
        (Post : Type) (s : AdvancedFeaturesComponent.State Post) :
  let paging := [("_start", Js.toString (AdvancedFeaturesComponent.startIndex s));
                 ("_limit", Js.toString (AdvancedFeaturesComponent.limit s))] in
  params (AdvancedFeaturesComponent.demonstrateParams_request s)
  = (if AdvancedFeaturesComponent.userId s =? 0 then []
     else [("userId", Js.toString (AdvancedFeaturesComponent.userId s))]) ++ paging
  /\ params (AdvancedFeaturesComponent.demonstrateParams_request
               (AdvancedFeaturesComponent.initial (Post:=Post)))
     = [("userId", "1"); ("_start", "0"); ("_limit", "5")].
Proof.
  simpl. split; [|reflexivity].
  unfold AdvancedFeaturesComponent.demonstrateParams_request,
    HttpDemoService.getPostsWithParams, Js.truthy.
  destruct (AdvancedFeaturesComponent.userId s =? 0); reflexivity.
Qed.

(** ** HttpDemoService CRUD calls and BasicCrudComponent *)

Lemma append_inj_r (a b c : string) : a +:+ b = a +:+ c -> b = c.
Proof.
  induction a as [|x a IH]; simpl; [auto|]. intros [= H]. auto.
Qed.

Lemma replace_found_ids (updatedPost : BasicCrud.Post) (l : list BasicCrud.Post) :
  List.map BasicCrud.id (BasicCrud.replace_found updatedPost l) = List.map BasicCrud.id l.
Proof.
  induction l as [|p l IH]; simpl; [reflexivity|].
  destruct (BasicCrud.same_id (BasicCrud.id p) (BasicCrud.id updatedPost)) eqn:Hid; simpl.
  - f_equal. destruct (BasicCrud.id p), (BasicCrud.id updatedPost); simpl in Hid;
      try discriminate; [|reflexivity].
    apply Z.eqb_eq in Hid. congruence.
  - rewrite IH. reflexivity.
Qed.

Lemma replace_found_absent (updatedPost : BasicCrud.Post) (l : list BasicCrud.Post) :
  ~ In (BasicCrud.id updatedPost) (List.map BasicCrud.id l) ->
  BasicCrud.replace_found updatedPost l = l.
Proof.
  induction l as [|p l IH]; simpl; [reflexivity|]. intros Hnot.
  destruct (BasicCrud.same_id (BasicCrud.id p) (BasicCrud.id updatedPost)) eqn:Hid.
  - exfalso. apply Hnot. left.
    destruct (BasicCrud.id p), (BasicCrud.id updatedPost); simpl in Hid;
      try discriminate; [|reflexivity].
    apply Z.eqb_eq in Hid. congruence.
  - rewrite IH; [reflexivity | tauto].
Qed.

Lemma replace_found_first (updatedPost p : BasicCrud.Post)
      (before after : list BasicCrud.Post) :
  BasicCrud.id p = BasicCrud.id updatedPost ->
  ~ In (BasicCrud.id updatedPost) (List.map BasicCrud.id before) ->
  BasicCrud.replace_found updatedPost (before ++ p :: after)
  = before ++ updatedPost :: after.
Proof.
  intros Hp. induction before as [|q before IH]; simpl; intros Hnot.
  - rewrite Hp. destruct (BasicCrud.id updatedPost); simpl;
      [rewrite Z.eqb_refl|]; reflexivity.
  - destruct (BasicCrud.same_id (BasicCrud.id q) (BasicCrud.id updatedPost)) eqn:Hid.
    + exfalso. apply Hnot. left.
      destruct (BasicCrud.id q), (BasicCrud.id updatedPost); simpl in Hid;
        try discriminate; [|reflexivity].
      apply Z.eqb_eq in Hid. congruence.
    + rewrite IH; [reflexivity | tauto].
Qed.

(** X28. [onSubmit] sends a PUT to the URL of the post exactly when the
    component is editing a post whose id is a number other than 0;
    otherwise it sends a POST to the collection, so the edit of a post with
    id 0 creates a new post instead of updating it.  The URLs of two posts
    are equal only when their ids are equal. *)
Theorem X28_submit_updates_or_creates (s : BasicCrud.State) (i j : Z) :
  (BasicCrud.isEditing s = true /\ BasicCrud.id (BasicCrud.currentPost s) = Some i /\ i <> 0 ->
   BasicCrud.onSubmit_call s
   = BasicCrud.mkCall "PUT" (BasicCrud.postsUrl +:+ "/" +:+ Js.toString i)
                      (Some (BasicCrud.currentPost s)))
  /\ (BasicCrud.isEditing s = false
      \/ BasicCrud.id (BasicCrud.currentPost s) = None
      \/ BasicCrud.id (BasicCrud.currentPost s) = Some 0 ->
      BasicCrud.onSubmit_call s
      = BasicCrud.mkCall "POST" BasicCrud.postsUrl (Some (BasicCrud.currentPost s)))
  /\ (BasicCrud.callUrl (BasicCrud.getPost i) = BasicCrud.callUrl (BasicCrud.getPost j)
      -> i = j).
Proof.
  unfold BasicCrud.onSubmit_call, BasicCrud.updates, BasicCrud.updatePost,
    BasicCrud.createPost, Js.truthy.
  split; [|split].
  - intros (-> & -> & Hi). simpl.
    destruct (Z.eqb_spec i 0); [contradiction | reflexivity].
  - intros [-> | [-> | ->]]; [reflexivity | |];
      destruct (BasicCrud.isEditing s); reflexivity.
  - simpl. intros H.
    apply append_inj_r in H. apply append_inj_r in H.
    exact (pretty_Z_inj _ _ H).
Qed.

(** X29. A successful update changes neither the number nor the order of
    the posts nor their ids: the answer of the server takes the place of
    the first post with its id, the posts before and after it staying as
    they were, and when no post has that id the list is left as it was.
    The form is reset.  A failed submit changes nothing, and the form stays
    as it was. *)
Theorem X29_update_keeps_the_list_shape
        (s : BasicCrud.State) (answer : BasicCrud.Post) (status : Z) :
  BasicCrud.updates s = true ->
  let s' := BasicCrud.onSubmit s (Ok answer) in
  List.map BasicCrud.id (BasicCrud.posts s') = List.map BasicCrud.id (BasicCrud.posts s)
  /\ length (BasicCrud.posts s') = length (BasicCrud.posts s)
  /\ (forall (before after : list BasicCrud.Post) (p : BasicCrud.Post),
        BasicCrud.posts s = before ++ p :: after ->
        BasicCrud.id p = BasicCrud.id answer ->
        ~ In (BasicCrud.id answer) (List.map BasicCrud.id before) ->
        BasicCrud.posts s' = before ++ answer :: after)
  /\ (~ In (BasicCrud.id answer) (List.map BasicCrud.id (BasicCrud.posts s)) ->
      BasicCrud.posts s' = BasicCrud.posts s)
  /\ BasicCrud.currentPost s' = BasicCrud.blankPost
  /\ BasicCrud.isEditing s' = false
  /\ BasicCrud.onSubmit s (Fail status) = s.
Proof.
  intros Hupd. simpl. unfold BasicCrud.onSubmit. rewrite Hupd. simpl.
  pose proof (replace_found_ids answer (BasicCrud.posts s)) as Hids.
  split; [exact Hids|]. split; [|split].
  - rewrite <- (length_map BasicCrud.id), Hids, length_map. reflexivity.
  - intros before after p Hposts Hp Hnot. rewrite Hposts.
    apply replace_found_first; assumption.
  - split; [apply replace_found_absent | auto].
Qed.

Lemma X29_update_keeps_the_list_shape_witness :
  let p1 := BasicCrud.mkPost (Some 1) "one" "" 1 in
  let p2 := BasicCrud.mkPost (Some 2) "two" "" 1 in
  let p3 := BasicCrud.mkPost (Some 2) "second two" "" 1 in
  let edited := BasicCrud.mkPost (Some 2) "TWO" "" 1 in
  let s := BasicCrud.mkState [p1; p2; p3] edited true in
  BasicCrud.updates s = true
  /\ BasicCrud.posts (BasicCrud.onSubmit s (Ok edited)) = [p1; edited; p3].
Proof.
  intros p1 p2 p3 edited s.
  assert (Hupd : BasicCrud.updates s = true) by reflexivity.
  split; [exact Hupd|].
  refine (proj1 (proj2 (proj2 (X29_update_keeps_the_list_shape s edited 0 Hupd)))
                [p1] [p3] p2 eq_refl eq_refl _).
  simpl. intros [H|[]]. discriminate H.
Defined.

(** X30. After a successful delete of post [i] no post with that id is left
    in the list, the posts with other ids are all still there in their
    order, and deleting the same id once more changes nothing; a failed
    delete leaves the list as it was. *)
Theorem X30_delete_removes_exactly_that_id
        (s : BasicCrud.State) (i : Z) (status : Z) :
  let s' := BasicCrud.onDelete i s (Ok tt) in
  ~ In (Some i) (List.map BasicCrud.id (BasicCrud.posts s'))
  /\ (forall p, BasicCrud.id p <> Some i ->
                (In p (BasicCrud.posts s') <-> In p (BasicCrud.posts s)))
  /\ BasicCrud.onDelete i s' (Ok tt) = s'
  /\ BasicCrud.onDelete i s (Fail status) = s.
Proof.
  simpl. split; [|split; [|split; [|reflexivity]]].
  - rewrite List.in_map_iff. intros (p & Hid & Hin).
    apply List.filter_In in Hin as [_ Hkeep]. rewrite Hid in Hkeep.
    simpl in Hkeep. rewrite Z.eqb_refl in Hkeep. discriminate.
  - intros p Hp. rewrite List.filter_In. split; [tauto|].
    intros Hin. split; [exact Hin|].
    destruct (BasicCrud.id p) as [v|] eqn:Hv; simpl; [|reflexivity].
    destruct (Z.eqb_spec v i); [congruence | reflexivity].
  - unfold BasicCrud.onDelete. simpl. f_equal.
    induction (BasicCrud.posts s) as [|p l IH]; simpl; [reflexivity|].
    destruct (negb (BasicCrud.same_id (BasicCrud.id p) (Some i))) eqn:Hk; simpl;
      [rewrite Hk, IH; reflexivity | exact IH].
Qed.
